(** * shell322: a shallow embedding of the command interpreter

    The development follows the C source function by function.

    - C strings are [list ascii]: the bytes that precede the terminating
      NUL.  Writing a NUL at offset [i] of a buffer is [take i]; a pointer
      [p + k] into a buffer is [drop k].
    - The argument array [char *args[MAX_ARGS]] is a [list (option cstr)]
      where [None] is the NULL pointer; [args[i] = x] is stdpp's
      [<[i:=x]>].
    - System calls are the nodes of a program tree ([sys]); an interpreter
      ([run]) plays a tree against the answers of the operating system and
      records what the process did. *)

From Stdlib Require Import ZArith Ascii String DecimalString Lia.
From stdpp Require Import base tactics option list strings.

Open Scope Z_scope.
Open Scope nat_scope.

(** ** Constants of the source *)

Definition MAX_ARGS : nat := 10.
Definition HISTORY_COUNT : nat := 10.

(** ** C strings *)

Abbreviation cstr := (list ascii).

Definition cs (s : string) : cstr := list_ascii_of_string s.

Definition TAB : ascii := "009"%char.
Definition NL : ascii := "010"%char.
Definition SPACE : ascii := " "%char.
Definition AMP : ascii := "&"%char.
Definition BAR : ascii := "|"%char.

(** The format strings of the source (a string literal here holds no
    escape sequences, so the final newline is appended). *)
Definition newline : string := String NL EmptyString.
Definition HISTORY_FORMAT : string := String.append "[%d] %s" newline.
Definition PWD_FORMAT : string := String.append "%s" newline.
Definition BG_FORMAT : string := String.append "[BG] Process ID: %d" newline.

(** [c] occurs in the character set [set] (the second argument of
    [strspn], [strcspn], [strtok]). *)
Definition in_set (set : cstr) (c : ascii) : bool :=
  existsb (Ascii.eqb c) set.

(** [strchr(s, c)]: offset of the first [c] in [s], [None] for NULL. *)
Fixpoint strchr (s : cstr) (c : ascii) : option nat :=
  match s with
  | [] => None
  | x :: s' => if Ascii.eqb x c then Some 0 else S <$> strchr s' c
  end.

(** [strspn(s, accept)]: length of the longest prefix made of characters
    of [accept]. *)
Fixpoint strspn (s accept : cstr) : nat :=
  match s with
  | [] => 0
  | x :: s' => if in_set accept x then S (strspn s' accept) else 0
  end.

(** [strcspn(s, reject)]: length of the longest prefix free of characters
    of [reject]. *)
Fixpoint strcspn (s reject : cstr) : nat :=
  match s with
  | [] => 0
  | x :: s' => if in_set reject x then 0 else S (strcspn s' reject)
  end.

(** [needle] is a prefix of [s]. *)
Fixpoint starts_with (needle s : cstr) : bool :=
  match needle, s with
  | [], _ => true
  | _ :: _, [] => false
  | a :: needle', b :: s' => Ascii.eqb a b && starts_with needle' s'
  end.

(** [strstr(s, needle)]: offset of the first occurrence of [needle]. *)
Fixpoint strstr (s needle : cstr) : option nat :=
  if starts_with needle s then Some 0
  else match s with
       | [] => None
       | _ :: s' => S <$> strstr s' needle
       end.

(** [strcmp(a, b) == 0]. *)
Fixpoint streq (a b : cstr) : bool :=
  match a, b with
  | [], [] => true
  | x :: a', y :: b' => Ascii.eqb x y && streq a' b'
  | _, _ => false
  end.

(** [strtok]: the scan position kept by the library between calls is made
    explicit.  [strtok s delim] is the call on the text [s] that remains to
    be scanned; it gives the token (or NULL) and the text left for the next
    call.  Leading delimiters are skipped; the token runs up to the next
    delimiter, which is overwritten by NUL and skipped. *)
Definition strtok (s delim : cstr) : option cstr * cstr :=
  let s1 := drop (strspn s delim) s in
  match s1 with
  | [] => (None, [])
  | _ :: _ =>
      let n := strcspn s1 delim in
      (Some (take n s1), drop (S n) s1)
  end.

(** ** Tokenizer *)

Abbreviation argv := (list (option cstr)).

(** The delimiter string [" \t\n"] of [parse_input]. *)
Definition DELIMS : cstr := [SPACE; TAB; NL].

Definition is_delim (c : ascii) : bool := in_set DELIMS c.

(** The [while] loop of [parse_input].  [room] is [MAX_ARGS - 1 - i]: the
    guard [i < MAX_ARGS - 1] holds exactly when [room] is a successor, and
    each iteration increments [i]. *)
Fixpoint parse_loop (room : nat) (token : option cstr) (save : cstr)
    (i : nat) (args : argv) : nat * argv :=
  match token, room with
  | Some t, S room' =>
      let args' := <[i := Some t]> args in
      let '(token', save') := strtok save DELIMS in
      parse_loop room' token' save' (S i) args'
  | _, _ => (i, args)
  end.

Definition parse_input (line : cstr) (args : argv) : nat * argv :=
  let '(token, save) := strtok line DELIMS in
  let '(i, args1) := parse_loop (MAX_ARGS - 1) token save 0 args in
  (i, <[i := None]> args1).

(** What [execvp] reads from an argument array: the entries before the
    first NULL. *)
Fixpoint argv_strings (args : argv) : list cstr :=
  match args with
  | Some t :: args' => t :: argv_strings args'
  | _ => []
  end.

(** *** Specification of splitting on runs of delimiters *)

(** The words of a line, read right to left: a character that is not a
    delimiter starts a new word when a delimiter (or the end) follows it,
    and extends the first word of the rest otherwise. *)
Fixpoint words (s : cstr) : list cstr :=
  match s with
  | [] => []
  | x :: s' =>
      if is_delim x then words s'
      else match s' with
           | [] => [[x]]
           | y :: _ =>
               if is_delim y then [x] :: words s'
               else match words s' with
                    | w :: ws => (x :: w) :: ws
                    | [] => [[x]]
                    end
           end
  end.

Definition all_delims (s : cstr) : Prop := Forall (λ c, is_delim c = true) s.
Definition is_word (w : cstr) : Prop :=
  w ≠ [] ∧ Forall (λ c, is_delim c = false) w.

(** [Splits s ts]: [s] is the words [ts], in order, separated by non-empty
    runs of delimiters, with optional runs at both ends. *)
Inductive Splits : cstr → list cstr → Prop :=
  | Splits_none ds :
      all_delims ds → Splits ds []
  | Splits_last ds w :
      all_delims ds → is_word w → Splits (ds ++ w) [w]
  | Splits_more ds w d rest ts :
      all_delims ds → is_word w → is_delim d = true →
      Splits rest ts → Splits (ds ++ w ++ d :: rest) (w :: ts).

(** ** History buffer (the globals [history] and [history_index]) *)

Record shell_state := ShellState {
  history : list (option cstr);
  history_index : nat
}.

(** The globals at program start: every slot NULL, index 0. *)
Definition initial_state : shell_state :=
  {| history := replicate HISTORY_COUNT None; history_index := 0 |}.

(** [free] has no observable effect; [strdup] is taken to succeed. *)
Definition add_to_history (cmd : cstr) (st : shell_state) : shell_state :=
  {| history := <[history_index st := Some cmd]> (history st);
     history_index := (history_index st + 1) mod HISTORY_COUNT |}.

(** ** Exit statuses (the [<sys/wait.h>] macros, Linux encoding) *)

Definition WTERMSIG (status : Z) : Z := Z.land status 127.
Definition WIFEXITED (status : Z) : bool := (WTERMSIG status =? 0)%Z.
Definition WEXITSTATUS (status : Z) : Z := Z.shiftr (Z.land status 65280) 8.

(** How a waited-for process ended ([waitpid] with options 0 reports no
    stopped or continued children). *)
Inductive termination :=
  | Normal (code : Z)
  | Signaled (sig : Z) (core : bool).

(** The integer the kernel stores for a termination. *)
Definition wstatus (t : termination) : Z :=
  match t with
  | Normal code => Z.shiftl (Z.land code 255) 8
  | Signaled sig core => Z.lor sig (if core then 128 else 0)
  end.

(** Exit codes are one byte; signal numbers are 1..126 (127 in the low
    seven bits marks a stopped process). *)
Definition valid_termination (t : termination) : Prop :=
  match t with
  | Normal code => (0 ≤ code < 256)%Z
  | Signaled sig _ => (1 ≤ sig < 127)%Z
  end.

Definition EXIT_FAILURE : Z := 1%Z.
Definition STDIN_FILENO : Z := 0%Z.
Definition STDOUT_FILENO : Z := 1%Z.

(** ** Programs over system calls *)

(** A [printf] argument. *)
Inductive parg :=
  | PInt (n : Z)
  | PStr (s : cstr).

(** A program is a tree whose nodes are the calls it makes; a call that
    gives something back has a continuation that receives it.

    - [Fork k]: [k] receives the return value of [fork]; the child is [k 0].
    - [Execvp file args k]: [k] is what follows when [execvp] returns,
      which it does only on failure.
    - [Waitpid pid want k]: [want] tells whether a status pointer was
      passed; [k] receives the status stored through it, [None] when
      nothing was stored.
    - [Pipe k]: [k] receives the two cells of [pipefd] after the call.
    - [Spin]: a loop of the model used up its iteration budget. *)
Inductive sys (R : Type) : Type :=
  | Ret (r : R)
  | Fork (k : Z → sys R)
  | Execvp (file : option cstr) (args : argv) (k : sys R)
  | Exit (code : Z)
  | Waitpid (pid : Z) (want : bool) (k : option Z → sys R)
  | Pipe (k : Z * Z → sys R)
  | Dup2 (oldfd newfd : Z) (k : sys R)
  | Close (fd : Z) (k : sys R)
  | Printf (fmt : string) (args : list parg) (k : sys R)
  | Perror (msg : string) (k : sys R)
  | Getenv (name : string) (k : option cstr → sys R)
  | Chdir (path : option cstr) (k : Z → sys R)
  | Getcwd (k : option cstr → sys R)
  | Setenv (name : string) (value : cstr) (k : sys R)
  | Spin.

Arguments Ret {R} r.
Arguments Fork {R} k.
Arguments Execvp {R} file args k.
Arguments Exit {R} code.
Arguments Waitpid {R} pid want k.
Arguments Pipe {R} k.
Arguments Dup2 {R} oldfd newfd k.
Arguments Close {R} fd k.
Arguments Printf {R} fmt args k.
Arguments Perror {R} msg k.
Arguments Getenv {R} name k.
Arguments Chdir {R} path k.
Arguments Getcwd {R} k.
Arguments Setenv {R} name value k.
Arguments Spin {R}.

(** Sequencing: [then_ p k] runs [p] and, if it returns, [k]. *)
Fixpoint then_ {A B : Type} (p : sys A) (k : A → sys B) : sys B :=
  match p with
  | Ret r => k r
  | Fork f => Fork (λ pid, then_ (f pid) k)
  | Execvp file args f => Execvp file args (then_ f k)
  | Exit code => Exit code
  | Waitpid pid want f => Waitpid pid want (λ st, then_ (f st) k)
  | Pipe f => Pipe (λ fds, then_ (f fds) k)
  | Dup2 a b f => Dup2 a b (then_ f k)
  | Close fd f => Close fd (then_ f k)
  | Printf fmt args f => Printf fmt args (then_ f k)
  | Perror msg f => Perror msg (then_ f k)
  | Getenv name f => Getenv name (λ v, then_ (f v) k)
  | Chdir path f => Chdir path (λ r, then_ (f r) k)
  | Getcwd f => Getcwd (λ v, then_ (f v) k)
  | Setenv name value f => Setenv name value (then_ f k)
  | Spin => Spin
  end.

Declare Scope sys_scope.
Delimit Scope sys_scope with sys.
Bind Scope sys_scope with sys.
Notation "p ;; q" := (then_ p (λ _, q))
  (at level 100, q at level 200, right associativity) : sys_scope.
Open Scope sys_scope.

(** [args[i]]; every index the source reads lies inside the array. *)
Definition arg_at (args : argv) (i : nat) : option cstr :=
  default None (args !! i).

(** [line[i]]; the terminating NUL is what is read at the end. *)
Definition char_at (s : cstr) (i : nat) : ascii :=
  default Ascii.zero (s !! i).

(** ** Built-ins *)

Definition run_builtin_cd (args : argv) : sys unit :=
  let chdir_to target :=
    Chdir target (λ r,
      if (r =? 0)%Z then
        Getcwd (λ cwd,
          match cwd with
          | Some d => Setenv "PWD" d (Ret tt)
          | None => Ret tt
          end)
      else Perror "cd error" (Ret tt)) in
  match arg_at args 1 with
  | Some target => chdir_to (Some target)
  | None => Getenv "HOME" chdir_to
  end.

Definition run_builtin_pwd : sys unit :=
  Getcwd (λ cwd,
    match cwd with
    | Some d => Printf PWD_FORMAT [PStr d] (Ret tt)
    | None => Perror "pwd error" (Ret tt)
    end).

(** The [do ... while] of [show_history].  [start] is [history_index];
    [fuel] bounds the iterations of the model ([Spin] when it runs out). *)
Fixpoint show_loop (fuel : nat) (h : list (option cstr))
    (start idx count : nat) : sys unit :=
  match fuel with
  | 0 => Spin
  | S fuel' =>
      let continue count' :=
        let idx' := (idx + 1) mod HISTORY_COUNT in
        if negb (idx' =? start) && (count' <? HISTORY_COUNT)
        then show_loop fuel' h start idx' count'
        else Ret tt in
      match default None (h !! idx) with
      | Some cmd =>
          Printf HISTORY_FORMAT [PInt (Z.of_nat (count + 1)); PStr cmd]
            (continue (S count))
      | None => continue count
      end
  end.

Definition show_history_fuel (fuel : nat) (st : shell_state) : sys unit :=
  show_loop fuel (history st) (history_index st) (history_index st) 0.

(** The index returns to [history_index] after [HISTORY_COUNT] steps, so
    that many iterations are all the loop can make
    ([show_history_fuel_enough]). *)
Definition show_history (st : shell_state) : sys unit :=
  show_history_fuel HISTORY_COUNT st.

(** ** Process launcher, pipe and conditional executors *)

(** The three branches on the return value of [fork]: failure, child,
    caller. *)
Definition execute_command (args : argv) (background : bool) : sys unit :=
  Fork (λ pid,
    if (pid <? 0)%Z then Perror "fork failed" (Ret tt)
    else if (pid =? 0)%Z then
      Execvp (arg_at args 0) args
        (Perror "exec error" (Exit EXIT_FAILURE))
    else if negb background then Waitpid pid false (λ _, Ret tt)
    else Printf BG_FORMAT [PInt pid] (Ret tt)).

(** What an iteration of the loop of [main] asks for: the next iteration
    ([continue]) or leaving the loop ([break]). *)
Inductive ctl := Continue | Break.

Section Handlers.

(** The indeterminate contents of the automatic variables
    [char *args[MAX_ARGS]] and [int status] before they are written. *)
Variable junk_args : argv.
Variable junk_status : Z.

(** [pipefd.1] is [pipefd[0]], the read end; [pipefd.2] is [pipefd[1]],
    the write end.  The return values of [pipe], [dup2], [close] and
    [waitpid] are not looked at, and [fork] is only compared with 0. *)
Definition handle_pipe (left right : cstr) : sys unit :=
  Pipe (λ pipefd,
    Fork (λ pid1,
      if (pid1 =? 0)%Z then
        Dup2 pipefd.2 STDOUT_FILENO
          (Close pipefd.1
            (Close pipefd.2
              (let args := (parse_input left junk_args).2 in
               Execvp (arg_at args 0) args
                 (Perror "exec left" (Exit 1)))))
      else
        Fork (λ pid2,
          if (pid2 =? 0)%Z then
            Dup2 pipefd.1 STDIN_FILENO
              (Close pipefd.2
                (Close pipefd.1
                  (let args := (parse_input right junk_args).2 in
                   Execvp (arg_at args 0) args
                     (Perror "exec right" (Exit 1)))))
          else
            Close pipefd.1
              (Close pipefd.2
                (Waitpid pid1 false (λ _,
                  Waitpid pid2 false (λ _, Ret tt))))))).

(** The left command is tokenized before [fork]; [status] is what
    [waitpid] stored, or what the variable held when it stored nothing;
    the right command is tokenized into the same array. *)
Definition handle_and (left right : cstr) : sys unit :=
  let args := (parse_input left junk_args).2 in
  Fork (λ pid,
    if (pid =? 0)%Z then
      Execvp (arg_at args 0) args (Perror "exec" (Exit 1))
    else
      Waitpid pid true (λ stored,
        let status := default junk_status stored in
        if WIFEXITED status && (WEXITSTATUS status =? 0)%Z then
          let args' := (parse_input right args).2 in
          execute_command args' false
        else Ret tt)).

(** ** Dispatcher: one iteration of the loop of [main], after [fgets] *)

(** [line] is what [fgets] put in the buffer.  A line that begins with a
    newline is the empty line: nothing is recorded and nothing is done. *)
Definition main_body (st : shell_state) (line : cstr)
    : sys (ctl * shell_state) :=
  if Ascii.eqb (char_at line 0) NL then Ret (Continue, st)
  else
    let st := add_to_history line st in
    match strstr line (cs "&&") with
    | Some i =>
        handle_and (take i line) (drop (i + 2) line) ;; Ret (Continue, st)
    | None =>
        match strchr line BAR with
        | Some i =>
            handle_pipe (take i line) (drop (i + 1) line) ;;
            Ret (Continue, st)
        | None =>
            let '(background, line) :=
              match strchr line AMP with
              | Some _ => (true, take (strcspn line (cs "&")) line)
              | None => (false, line)
              end in
            let args := (parse_input line junk_args).2 in
            match arg_at args 0 with
            | None => Ret (Continue, st)
            | Some a0 =>
                if streq a0 (cs "cd") then
                  run_builtin_cd args ;; Ret (Continue, st)
                else if streq a0 (cs "pwd") then
                  run_builtin_pwd ;; Ret (Continue, st)
                else if streq a0 (cs "exit") then Ret (Break, st)
                else if streq a0 (cs "history") then
                  show_history st ;; Ret (Continue, st)
                else
                  execute_command args background ;; Ret (Continue, st)
            end
        end
    end.

End Handlers.

(** ** The operating system and the interpreter *)

(** The answers of the operating system.  A process numbers its calls
    (its clock); an answer may depend on the clock and on the arguments.

    - [os_fork]: the new process id, or [None] when [fork] fails (the
      caller then receives -1);
    - [os_exec]: whether [execvp] finds and starts the program;
    - [os_wait]: the process collected and its status, or [None] when
      [waitpid] fails;
    - [os_pipe]: the two cells of [pipefd] after [pipe];
    - [os_chdir]: whether [chdir] succeeds. *)
Record os := OS {
  os_fork : nat → option positive;
  os_exec : nat → cstr → list cstr → bool;
  os_wait : nat → Z → option (positive * Z);
  os_pipe : nat → Z * Z;
  os_getenv : nat → string → option cstr;
  os_chdir : nat → option cstr → bool;
  os_getcwd : nat → option cstr
}.

(** What a process did: each call with its arguments and, where the
    program can see it, its answer. *)
Inductive event :=
  | EvFork (ret : Z)
  | EvExecvp (file : option cstr) (args : list cstr)
  | EvExit (code : Z)
  | EvWaitpid (pid : Z) (want : bool) (answer : option (positive * Z))
  | EvPipe (fds : Z * Z)
  | EvDup2 (oldfd newfd : Z)
  | EvClose (fd : Z)
  | EvPrintf (fmt : string) (args : list parg)
  | EvPerror (msg : string)
  | EvGetenv (name : string) (value : option cstr)
  | EvChdir (path : option cstr) (ret : Z)
  | EvGetcwd (value : option cstr)
  | EvSetenv (name : string) (value : cstr).

(** How the code of a process ends.  [Replaced]: [execvp] succeeded and
    the program is gone.  [Undefined]: the process made a call outside its
    contract.  [Diverged]: [Spin] was reached. *)
Inductive outcome (R : Type) :=
  | Returned (r : R)
  | Exited (code : Z)
  | Replaced (file : cstr) (args : list cstr)
  | Undefined
  | Diverged.

Arguments Returned {R} r.
Arguments Exited {R} code.
Arguments Replaced {R} file args.
Arguments Undefined {R}.
Arguments Diverged {R}.

Record process (R : Type) := Process {
  trace : list event;
  ending : outcome R
}.

Arguments Process {R} trace ending.
Arguments trace {R} p.
Arguments ending {R} p.

(** A run of a program: the process itself and the processes it created
    (with their descendants), each under its process id. *)
Record execution (R : Type) := Execution {
  self : process R;
  children : list (Z * process R)
}.

Arguments Execution {R} self children.
Arguments self {R} e.
Arguments children {R} e.

Definition finish {R} (o : outcome R) : execution R :=
  Execution (Process [] o) [].

Definition after {R} (ev : event) (e : execution R) : execution R :=
  Execution (Process (ev :: trace (self e)) (ending (self e))) (children e).

Definition fork_ret (a : option positive) : Z :=
  match a with
  | Some pid => Zpos pid
  | None => (-1)%Z
  end.

(** [run w n p]: the program [p] run from clock [n] against [w].

    A successful [fork] runs the continuation twice: with 0 as the child,
    which starts at the caller's clock, and with the process id as the
    caller.  [execvp] declares its [file]
    parameter non-null and reads through it, so a NULL [file] is outside
    the contract of the call. *)
Fixpoint run {R} (w : os) (n : nat) (p : sys R) : execution R :=
  match p with
  | Ret r => finish (Returned r)
  | Fork k =>
      match os_fork w n with
      | Some pid =>
          let child := run w (S n) (k 0%Z) in
          let me := run w (S n) (k (Zpos pid)) in
          Execution
            (Process (EvFork (Zpos pid) :: trace (self me)) (ending (self me)))
            ((Zpos pid, self child) :: children child ++ children me)
      | None => after (EvFork (-1)%Z) (run w (S n) (k (-1)%Z))
      end
  | Execvp file args k =>
      let ev := EvExecvp file (argv_strings args) in
      match file with
      | None => after ev (finish Undefined)
      | Some f =>
          if os_exec w n f (argv_strings args)
          then after ev (finish (Replaced f (argv_strings args)))
          else after ev (run w (S n) k)
      end
  | Exit code => after (EvExit code) (finish (Exited code))
  | Waitpid pid want k =>
      let a := os_wait w n pid in
      after (EvWaitpid pid want a)
        (run w (S n) (k (if want then snd <$> a else None)))
  | Pipe k =>
      let fds := os_pipe w n in
      after (EvPipe fds) (run w (S n) (k fds))
  | Dup2 oldfd newfd k => after (EvDup2 oldfd newfd) (run w (S n) k)
  | Close fd k => after (EvClose fd) (run w (S n) k)
  | Printf fmt args k => after (EvPrintf fmt args) (run w (S n) k)
  | Perror msg k => after (EvPerror msg) (run w (S n) k)
  | Getenv name k =>
      let v := os_getenv w n name in
      after (EvGetenv name v) (run w (S n) (k v))
  | Chdir path k =>
      let r := if os_chdir w n path then 0%Z else (-1)%Z in
      after (EvChdir path r) (run w (S n) (k r))
  | Getcwd k =>
      let v := os_getcwd w n in
      after (EvGetcwd v) (run w (S n) (k v))
  | Setenv name value k => after (EvSetenv name value) (run w (S n) k)
  | Spin => finish Diverged
  end.

(** *** Observations on traces *)

Definition is_fork (ev : event) : bool :=
  match ev with EvFork _ => true | _ => false end.

Definition is_wait (ev : event) : bool :=
  match ev with EvWaitpid _ _ _ => true | _ => false end.

Definition is_perror (ev : event) : bool :=
  match ev with EvPerror _ => true | _ => false end.

Definition is_bg_line (ev : event) : bool :=
  match ev with
  | EvPrintf fmt _ => String.eqb fmt BG_FORMAT
  | _ => false
  end.

(** *** What [printf] writes *)

Definition decimal (n : Z) : cstr :=
  cs (NilZero.string_of_int (Z.to_int n)).

(** The conversions the source uses: [%d] and [%s]. *)
Fixpoint render (fmt : cstr) (args : list parg) : cstr :=
  match fmt with
  | [] => []
  | c :: fmt' =>
      if Ascii.eqb c "%" then
        match fmt' with
        | [] => []
        | d :: fmt'' =>
            match args with
            | PInt n :: args' =>
                if Ascii.eqb d "d" then decimal n ++ render fmt'' args' else []
            | PStr s :: args' =>
                if Ascii.eqb d "s" then s ++ render fmt'' args' else []
            | [] => []
            end
        end
      else c :: render fmt' args
  end.

(** The text a trace sends to standard output. *)
Fixpoint stdout_of (tr : list event) : cstr :=
  match tr with
  | [] => []
  | EvPrintf fmt args :: tr' => render (cs fmt) args ++ stdout_of tr'
  | _ :: tr' => stdout_of tr'
  end.

(** *** Auxiliary definitions for the statements *)

(** [fill i ts args]: the array after the stores [args[i] = t0],
    [args[i+1] = t1], ... *)
Fixpoint fill (i : nat) (ts : list cstr) (args : argv) : argv :=
  match ts with
  | [] => args
  | t :: ts' => fill (S i) ts' (<[i := Some t]> args)
  end.

(** [record_all cmds st]: the state after [add_to_history] was called on
    each of [cmds], in order. *)
Definition record_all (cmds : list cstr) (st : shell_state) : shell_state :=
  foldl (λ st cmd, add_to_history cmd st) st cmds.

(** The most recent [HISTORY_COUNT] of the commands entered, oldest
    first. *)
Definition window (cmds : list cstr) : list cstr :=
  drop (length cmds - HISTORY_COUNT) cmds.

(** Printing [cmds] one per line, numbered from [n]. *)
Fixpoint print_lines (n : nat) (cmds : list cstr) : sys unit :=
  match cmds with
  | [] => Ret tt
  | cmd :: cmds' =>
      Printf HISTORY_FORMAT [PInt (Z.of_nat n); PStr cmd]
        (print_lines (S n) cmds')
  end.

(** The same over slots, skipping the NULL ones. *)
Fixpoint print_slots (n : nat) (slots : list (option cstr)) : sys unit :=
  match slots with
  | [] => Ret tt
  | Some cmd :: slots' =>
      Printf HISTORY_FORMAT [PInt (Z.of_nat n); PStr cmd]
        (print_slots (S n) slots')
  | None :: slots' => print_slots n slots'
  end.

(** The buffer read circularly from slot [i]. *)
Definition from_slot (i : nat) (h : list (option cstr)) : list (option cstr) :=
  drop i h ++ take i h.

(** What the history buffer holds after the commands [cmds]: the index is
    the number of commands modulo [HISTORY_COUNT], and the buffer read
    circularly from the index is the window, preceded by the slots still
    NULL. *)
Definition history_inv (cmds : list cstr) (st : shell_state) : Prop :=
  history_index st = length cmds mod HISTORY_COUNT ∧
  length (history st) = HISTORY_COUNT ∧
  from_slot (history_index st) (history st) =
    replicate (HISTORY_COUNT - length (window cmds)) None ++
    (Some <$> window cmds).

(** *** Operators in a line *)

(** [needle] occurs in [s]. *)
Definition occurs (needle s : cstr) : Prop :=
  ∃ pre post, s = pre ++ needle ++ post.

(** [l] and [r] are what precedes and what follows the first occurrence of
    [needle] in [s]. *)
Definition splits_at_first (needle s l r : cstr) : Prop :=
  s = l ++ needle ++ r ∧
  ∀ pre post, s = pre ++ needle ++ post → length l ≤ length pre.

(** *** The dispatcher on a command without operators *)

(** The tokens [parse_input] keeps. *)
Definition tokens (text : cstr) : list cstr :=
  take (MAX_ARGS - 1) (words text).

(** The array holding [ts] followed by NULL; the slots after it are those
    of [old]. *)
Definition args_of (ts : list cstr) (old : argv) : argv :=
  (Some <$> ts) ++ None :: drop (S (length ts)) old.

Definition builtin_names : list cstr :=
  [cs "cd"; cs "pwd"; cs "exit"; cs "history"].

(** What the dispatcher does with a command text once the background
    flag is known: nothing when it has no token, the built-in when the
    first token names one, a launch otherwise. *)
Definition simple_command (junk_args : argv) (st : shell_state)
    (text : cstr) (background : bool) : sys (ctl * shell_state) :=
  let args := args_of (tokens text) junk_args in
  match tokens text with
  | [] => Ret (Continue, st)
  | name :: _ =>
      if decide (name = cs "cd") then
        run_builtin_cd args ;; Ret (Continue, st)
      else if decide (name = cs "pwd") then
        run_builtin_pwd ;; Ret (Continue, st)
      else if decide (name = cs "exit") then Ret (Break, st)
      else if decide (name = cs "history") then
        show_history st ;; Ret (Continue, st)
      else execute_command args background ;; Ret (Continue, st)
  end.

(** A program that creates no process and prints no background line. *)
Inductive no_launch {R : Type} : sys R → Prop :=
  | no_launch_Ret r : no_launch (Ret r)
  | no_launch_Exit code : no_launch (Exit code)
  | no_launch_Spin : no_launch Spin
  | no_launch_Printf fmt args k :
      fmt ≠ BG_FORMAT → no_launch k → no_launch (Printf fmt args k)
  | no_launch_Perror msg k : no_launch k → no_launch (Perror msg k)
  | no_launch_Getenv name k :
      (∀ v, no_launch (k v)) → no_launch (Getenv name k)
  | no_launch_Chdir path k :
      (∀ r, no_launch (k r)) → no_launch (Chdir path k)
  | no_launch_Getcwd k : (∀ v, no_launch (k v)) → no_launch (Getcwd k)
  | no_launch_Setenv name value k :
      no_launch k → no_launch (Setenv name value k).

(** Whether a termination is the success the conditional executor tests
    for. *)
Definition succeeded (t : termination) : bool :=
  match t with
  | Normal code => (code =? 0)%Z
  | Signaled _ _ => false
  end.

(** [P]-events all come before [Q]-events. *)
Definition precedes (P Q : event → bool) (tr : list event) : Prop :=
  ∀ i j a b,
    tr !! i = Some a → tr !! j = Some b →
    P a = true → Q b = true → i < j.

Definition is_close (ev : event) : bool :=
  match ev with EvClose _ => true | _ => false end.

(** *** Sample operating systems *)

(** Every call succeeds: process ids are [100 + clock], programs are
    found, a wait collects the process asked for with status 0. *)
Definition os_fine : os :=
  {| os_fork := λ n, Some (Pos.of_nat (100 + n));
     os_exec := λ _ _ _, true;
     os_wait := λ _ pid,
       match pid with
       | Zpos p => Some (p, 0%Z)
       | _ => None
       end;
     os_pipe := λ _, (3%Z, 4%Z);
     os_getenv := λ _ _, Some (cs "/home/user");
     os_chdir := λ _ _, true;
     os_getcwd := λ _, Some (cs "/home/user") |}.

(** The process table is full: [fork] fails, and there is no child to
    wait for. *)
Definition os_no_fork : os :=
  {| os_fork := λ _, None;
     os_exec := λ _ _ _, true;
     os_wait := λ _ _, None;
     os_pipe := λ _, (3%Z, 4%Z);
     os_getenv := λ _ _, Some (cs "/home/user");
     os_chdir := λ _ _, true;
     os_getcwd := λ _, Some (cs "/home/user") |}.

(** [fork] fails while an earlier background child (process 77) has
    finished with status 0 and is waiting to be collected. *)
Definition os_no_fork_zombie : os :=
  {| os_fork := λ n, if n =? 0 then None else Some (Pos.of_nat (100 + n));
     os_exec := λ _ _ _, true;
     os_wait := λ _ pid,
       match pid with
       | Zpos p => Some (p, 0%Z)
       | _ => Some (77%positive, 0%Z)
       end;
     os_pipe := λ _, (3%Z, 4%Z);
     os_getenv := λ _ _, Some (cs "/home/user");
     os_chdir := λ _ _, true;
     os_getcwd := λ _, Some (cs "/home/user") |}.

(** An argument array before it is written. *)
Definition blank_args : argv := replicate MAX_ARGS None.

(** A line as [fgets] delivers it: the text and the newline. *)
Definition ln (s : string) : cstr := cs s ++ [NL].

(** The code of a child once its streams are set: [execvp], and on its
    return the report and [exit]. *)
Definition exec_or_die {R : Type} (args : argv) (msg : string) (code : Z)
    : sys R :=
  Execvp (arg_at args 0) args (Perror msg (Exit code)).

(** What a child running [exec_or_die] does, from clock [n]: with a NULL
    program name the call is outside its contract; otherwise the program
    replaces the child, or the failure is reported and the child exits. *)
Definition child_process {R : Type} (w : os) (n : nat) (args : argv)
    (msg : string) (code : Z) : process R :=
  let call := EvExecvp (arg_at args 0) (argv_strings args) in
  match arg_at args 0 with
  | None => Process [call] Undefined
  | Some f =>
      if os_exec w n f (argv_strings args)
      then Process [call] (Replaced f (argv_strings args))
      else Process [call; EvPerror msg; EvExit code] (Exited code)
  end.

(** A pipe child: the redirection [setup], then [exec_or_die] from
    clock [n]. *)
Definition piped_child {R : Type} (w : os) (n : nat) (setup : list event)
    (args : argv) (msg : string) : process R :=
  let p : process R := child_process w n args msg 1%Z in
  Process (setup ++ trace p) (ending p).

(** The entry of a created process in the list of children; nothing when
    [fork] failed. *)
Definition spawned {R : Type} (a : option positive) (p : process R)
    : list (Z * process R) :=
  match a with
  | Some pid => [(Zpos pid, p)]
  | None => []
  end.

(** The parent's side of the pipe executor. *)
Definition pipe_parent_trace (w : os) (n : nat) : list event :=
  let fds := os_pipe w n in
  let pid1 := fork_ret (os_fork w (1 + n)) in
  let pid2 := fork_ret (os_fork w (2 + n)) in
  [EvPipe fds; EvFork pid1; EvFork pid2;
   EvClose fds.1; EvClose fds.2;
   EvWaitpid pid1 false (os_wait w (5 + n) pid1);
   EvWaitpid pid2 false (os_wait w (6 + n) pid2)].

(** The children the pipe executor creates. *)
Definition pipe_children {R : Type} (w : os) (n : nat) (junk : argv)
    (l r : cstr) : list (Z * process R) :=
  let fds := os_pipe w n in
  spawned (os_fork w (1 + n))
    (piped_child w (5 + n)
       [EvDup2 fds.2 STDOUT_FILENO; EvClose fds.1; EvClose fds.2]
       (args_of (tokens l) junk) "exec left") ++
  spawned (os_fork w (2 + n))
    (piped_child w (6 + n)
       [EvDup2 fds.1 STDIN_FILENO; EvClose fds.2; EvClose fds.1]
       (args_of (tokens r) junk) "exec right").

(** ** The loop of [main] *)

Definition PROMPT : string := "shell322> ".




Section Main.

(** As in [Handlers]: what the automatic variables hold before they are
    written. *)
Variable junk_args : argv.
Variable junk_status : Z.

(** The loop of [main] on the lines [fgets] delivers, NULL after the last
    one: the prompt, the read, one iteration, and again unless the
    iteration asked to leave. *)
Fixpoint main_loop (input : list cstr) (st : shell_state)
    : sys shell_state :=
  Printf PROMPT []
    match input with
    | [] => Ret st
    | line :: input' =>
        then_ (main_body junk_args junk_status st line)
          (λ r, match r.1 with
                | Continue => main_loop input' r.2
                | Break => Ret r.2
                end)
    end.

(** [main]: the loop from the initial globals; freeing the history has no
    observable effect; the return value is 0. *)
Definition main (input : list cstr) : sys Z :=
  then_ (main_loop input initial_state) (λ _, Ret 0%Z).

End Main.

(** *** Auxiliary definitions for the statements on the loop *)

(** The history buffer has its [HISTORY_COUNT] slots and the index is one
    of them. *)
Definition valid_state (st : shell_state) : Prop :=
  length (history st) = HISTORY_COUNT ∧ history_index st < HISTORY_COUNT.

(** How the code of a child may end: the program took over, the call was
    outside its contract, or the failure was reported and the child
    exited with status 1. *)
Definition child_end_ok {R : Type} (p : process R) : Prop :=
  match ending p with
  | Replaced _ _ => True
  | Undefined => True
  | Exited code => code = 1%Z ∧ existsb is_perror (trace p) = true
  | Returned _ => False
  | Diverged => False
  end.

(** The calls by which the shell handles processes and channels. *)
Definition is_process_call (ev : event) : bool :=
  match ev with
  | EvFork _ | EvWaitpid _ _ _ | EvPipe _ | EvClose _ | EvPerror _ => true
  | _ => false
  end.

(** Words joined by single spaces. *)
Fixpoint join_words (ts : list cstr) : cstr :=
  match ts with
  | [] => []
  | [t] => t
  | t :: ts' => t ++ SPACE :: join_words ts'
  end.

(** The line the dispatcher treats as the command [exit]: no operator
    wins, and the first token of the text before any [&] is [exit]. *)
Definition exit_line (line : cstr) : bool :=
  negb (Ascii.eqb (char_at line 0) NL) &&
  bool_decide (strstr line (cs "&&") = None) &&
  bool_decide (strchr line BAR = None) &&
  bool_decide (head (tokens (take (strcspn line [AMP]) line)) =
               Some (cs "exit")).

(** The lines up to and including the first [exit]. *)
Fixpoint until_exit (input : list cstr) : list cstr :=
  match input with
  | [] => []
  | line :: input' =>
      if exit_line line then [line] else line :: until_exit input'
  end.

(** The lines [main] records: all but the empty ones. *)
Definition recorded (input : list cstr) : list cstr :=
  filter (λ line, char_at line 0 ≠ NL) input.

(** The [printf] calls of a listing of slots, numbered from [n]. *)
Fixpoint listing (n : nat) (slots : list (option cstr)) : list event :=
  match slots with
  | [] => []
  | Some cmd :: slots' =>
      EvPrintf HISTORY_FORMAT [PInt (Z.of_nat n); PStr cmd] ::
      listing (S n) slots'
  | None :: slots' => listing n slots'
  end.

(** The number of slots in use. *)
Definition in_use (slots : list (option cstr)) : nat :=
  length (omap id slots).

(** *** Descriptor tables *)

(** What a descriptor of a process refers to: a stream the shell was
    started with, or an end of the channel. *)
Inductive channel :=
  | Inherited (fd : Z)
  | PipeRead
  | PipeWrite.

Definition fd_put (fd : Z) (c : option channel) (t : Z → option channel)
    : Z → option channel :=
  λ x, if (x =? fd)%Z then c else t x.

(** The table the shell starts with: the three standard streams. *)
Definition std_table : Z → option channel :=
  λ x, if ((0 <=? x) && (x <=? 2))%Z then Some (Inherited x) else None.

(** The effect of a call on the table of the process that makes it;
    [None] when the call names a descriptor that is not open.  [pipe] is
    taken to have succeeded with the descriptors the event shows. *)
Definition fd_event (t : Z → option channel) (ev : event)
    : option (Z → option channel) :=
  match ev with
  | EvPipe fds =>
      Some (fd_put fds.2 (Some PipeWrite) (fd_put fds.1 (Some PipeRead) t))
  | EvDup2 oldfd newfd =>
      match t oldfd with
      | Some c => Some (fd_put newfd (Some c) t)
      | None => None
      end
  | EvClose fd =>
      match t fd with
      | Some _ => Some (fd_put fd None t)
      | None => None
      end
  | _ => Some t
  end.

Fixpoint fd_trace (t : Z → option channel) (tr : list event)
    : option (Z → option channel) :=
  match tr with
  | [] => Some t
  | ev :: tr' =>
      match fd_event t ev with
      | Some t' => fd_trace t' tr'
      | None => None
      end
  end.

(** Two tables with the same entries. *)
Definition same_table (t1 t2 : Z → option channel) : Prop :=
  ∀ x, t1 x = t2 x.

(** A call sequence that goes through, from [t] to a table like [t']. *)
Definition fd_result (t : Z → option channel) (tr : list event)
    (t' : Z → option channel) : Prop :=
  ∃ t1, fd_trace t tr = Some t1 ∧ same_table t1 t'.

(** No program can be started: [execvp] fails, and a wait collects the
    process asked for with the status of [exit(1)]. *)
Definition os_not_found : os :=
  {| os_fork := λ n, Some (Pos.of_nat (100 + n));
     os_exec := λ _ _ _, false;
     os_wait := λ _ pid,
       match pid with
       | Zpos p => Some (p, wstatus (Normal 1))
       | _ => None
       end;
     os_pipe := λ _, (3%Z, 4%Z);
     os_getenv := λ _ _, None;
     os_chdir := λ _ _, false;
     os_getcwd := λ _, None |}.

(** * Properties *)

(** ** Characters and character sets *)

Lemma is_delim_cases c :
  is_delim c = true ↔ c = SPACE ∨ c = TAB ∨ c = NL.
Proof.
  unfold is_delim, in_set, DELIMS. simpl.
  rewrite !orb_true_iff, !Ascii.eqb_eq. intuition congruence.
Qed.

Lemma strspn_cons x s accept :
  strspn (x :: s) accept =
  if in_set accept x then S (strspn s accept) else 0.
Proof. done. Qed.

Lemma strcspn_cons x s reject :
  strcspn (x :: s) reject =
  if in_set reject x then 0 else S (strcspn s reject).
Proof. done. Qed.

Lemma strspn_delims ds rest :
  all_delims ds →
  (∀ c rest', rest = c :: rest' → is_delim c = false) →
  strspn (ds ++ rest) DELIMS = length ds.
Proof.
  intros Hds Hrest. unfold all_delims, is_delim in *.
  induction Hds as [|d ds Hd _ IH]; cbn [app length].
  - destruct rest as [|c rest']; [done|].
    by rewrite strspn_cons, (Hrest c rest').
  - by rewrite strspn_cons, Hd, IH.
Qed.

Lemma strcspn_word w rest :
  Forall (λ c, is_delim c = false) w →
  (∀ c rest', rest = c :: rest' → is_delim c = true) →
  strcspn (w ++ rest) DELIMS = length w.
Proof.
  intros Hw Hrest. unfold is_delim in *.
  induction Hw as [|x w Hx _ IH]; cbn [app length].
  - destruct rest as [|c rest']; [done|].
    by rewrite strcspn_cons, (Hrest c rest').
  - by rewrite strcspn_cons, Hx, IH.
Qed.

(** ** [strtok] on the three shapes of a line *)

Lemma strtok_none ds :
  all_delims ds → strtok ds DELIMS = (None, []).
Proof.
  intros Hds. unfold strtok.
  rewrite <- (app_nil_r ds) at 1 2.
  rewrite strspn_delims by done.
  by rewrite app_nil_r, drop_all.
Qed.

Lemma strtok_last ds w :
  all_delims ds → is_word w → strtok (ds ++ w) DELIMS = (Some w, []).
Proof.
  intros Hds [Hne Hw]. unfold strtok.
  rewrite strspn_delims; [|done|].
  2:{ intros c rest' ->. by inversion Hw. }
  rewrite drop_app_length.
  destruct w as [|x w'] eqn:E; [done|]. rewrite <- E in *.
  assert (strcspn w DELIMS = length w) as ->.
  { rewrite <- (app_nil_r w) at 1. by apply strcspn_word. }
  rewrite firstn_all. rewrite drop_ge by lia. done.
Qed.

Lemma strtok_more ds w d rest :
  all_delims ds → is_word w → is_delim d = true →
  strtok (ds ++ w ++ d :: rest) DELIMS = (Some w, rest).
Proof.
  intros Hds [Hne Hw] Hd. unfold strtok.
  rewrite strspn_delims; [|done|].
  2:{ intros c rest' E. destruct w as [|x w']; [done|].
      simpl in E. inversion E; subst. by inversion Hw. }
  rewrite drop_app_length.
  destruct (w ++ d :: rest) as [|x s'] eqn:E.
  { by destruct w. }
  rewrite <- E.
  rewrite strcspn_word; [|done|by intros c rest' [= -> _]].
  rewrite take_app_length.
  replace (S (length w)) with (length (w ++ [d])) by (rewrite length_app; simpl; lia).
  replace (w ++ d :: rest) with ((w ++ [d]) ++ rest) by (by rewrite <- app_assoc).
  by rewrite drop_app_length.
Qed.

(** ** The tokenizer loop along a split line *)

Lemma parse_loop_splits s ts :
  Splits s ts →
  ∀ room i args,
    parse_loop room (strtok s DELIMS).1 (strtok s DELIMS).2 i args =
    (i + length (take room ts), fill i (take room ts) args).
Proof.
  induction 1 as [ds Hds|ds w Hds Hw|ds w d rest ts Hds Hw Hd _ IH];
    intros room i args.
  - rewrite strtok_none by done. rewrite take_nil.
    destruct room; simpl; f_equal; lia.
  - rewrite strtok_last by done. destruct room as [|room]; simpl.
    { f_equal; lia. }
    rewrite take_nil. destruct room; simpl; f_equal; lia.
  - rewrite strtok_more by done. destruct room as [|room]; simpl.
    { f_equal; lia. }
    specialize (IH room (S i) (<[i:=Some w]> args)).
    destruct (strtok rest DELIMS) as [token' save'].
    simpl in IH. rewrite IH. f_equal; lia.
Qed.


Lemma fill_explicit ts : ∀ i (args : argv),
  i + length ts ≤ length args →
  fill i ts args = take i args ++ (Some <$> ts) ++ drop (i + length ts) args.
Proof.
  induction ts as [|t ts IH]; intros i args Hlen; cbn [fill length fmap list_fmap] in *.
  - rewrite Nat.add_0_r. simpl. by rewrite take_drop.
  - rewrite IH by (rewrite length_insert; lia).
    rewrite drop_insert_lt by lia.
    assert (is_Some (args !! i)) as [x Hx] by (apply lookup_lt_is_Some; lia).
    rewrite (take_S_r _ _ (Some t)).
    2:{ apply list_lookup_insert_eq. lia. }
    rewrite take_insert_ge by lia.
    replace (i + S (length ts)) with (S i + length ts) by lia.
    by rewrite <- app_assoc.
Qed.

(** The array [parse_input] leaves behind, in closed form. *)
Lemma parse_input_splits s ts (args : argv) :
  Splits s ts →
  length args = MAX_ARGS →
  let kept := take (MAX_ARGS - 1) ts in
  parse_input s args =
  (length kept, (Some <$> kept) ++ None :: drop (S (length kept)) args).
Proof.
  intros Hs Hlen kept. unfold parse_input.
  pose proof (parse_loop_splits s ts Hs (MAX_ARGS - 1) 0 args) as E.
  destruct (strtok s DELIMS) as [token save]. cbn [fst snd] in E.
  rewrite E. fold kept.
  assert (length kept ≤ MAX_ARGS - 1) as Hk.
  { subst kept. rewrite length_take. lia. }
  unfold MAX_ARGS in *. cbn [Nat.add]. f_equal.
  rewrite fill_explicit by (cbn [Nat.add]; lia).
  rewrite take_0. cbn [Nat.add app].
  rewrite insert_app_r_alt by (rewrite length_fmap; lia).
  rewrite length_fmap, Nat.sub_diag.
  assert (is_Some (args !! length kept)) as [x Hx]
    by (apply lookup_lt_is_Some; lia).
  rewrite (drop_S _ x _ Hx). done.
Qed.

Lemma argv_strings_sentinel ts (rest : argv) :
  argv_strings ((Some <$> ts) ++ None :: rest) = ts.
Proof.
  induction ts as [|t ts IH]; [done|].
  rewrite fmap_cons. cbn [app argv_strings]. by rewrite IH.
Qed.

(** ** [words] is the splitting on runs of delimiters *)

Lemma Splits_delim d s ts :
  is_delim d = true → Splits s ts → Splits (d :: s) ts.
Proof.
  intros Hd Hs. destruct Hs as [ds Hds|ds w Hds Hw|ds w d' rest ts Hds Hw Hd' Hs].
  - apply Splits_none. by constructor.
  - apply (Splits_last (d :: ds)); [by constructor|done].
  - apply (Splits_more (d :: ds)); [by constructor|done..].
Qed.

Lemma all_delims_head_nil ds tl y s :
  is_delim y = false → all_delims ds → ds ++ tl = y :: s → ds = [].
Proof.
  intros Hy Hds E. destruct ds as [|d ds]; [done|].
  simpl in E. inversion E; subst. inversion Hds; subst. congruence.
Qed.

Lemma Splits_extend x y s w ws :
  is_delim x = false → is_delim y = false →
  Splits (y :: s) (w :: ws) → Splits (x :: y :: s) ((x :: w) :: ws).
Proof.
  intros Hx Hy Hs.
  assert (is_word w → is_word (x :: w)) as Hword.
  { intros [_ Hw]. split; [done|by constructor]. }
  inversion Hs as [|ds w' Hds Hw E|ds w' d rest ts Hds Hw Hd Hrest E].
  - subst. pose proof (all_delims_head_nil _ _ _ _ Hy Hds E) as ->.
    apply (Splits_last [] (x :: w)); [constructor|auto].
  - subst. pose proof (all_delims_head_nil _ _ _ _ Hy Hds E) as ->.
    apply (Splits_more [] (x :: w)); [constructor|auto..].
Qed.

Lemma words_head_nonempty y s :
  is_delim y = false → words (y :: s) ≠ [].
Proof.
  intros Hy. cbn [words]. rewrite Hy.
  destruct s as [|z s]; [done|].
  destruct (is_delim z); [done|]. by destruct (words (z :: s)).
Qed.

Lemma words_Splits s : Splits s (words s).
Proof.
  remember (length s) as n eqn:Hn. revert s Hn.
  induction n as [n IH] using lt_wf_ind. intros s ->.
  destruct s as [|x s]; [apply Splits_none; constructor|].
  cbn [words]. destruct (is_delim x) eqn:Hx.
  { apply Splits_delim; [done|]. eapply IH; [|done]. simpl; lia. }
  destruct s as [|y s].
  { apply (Splits_last [] [x]); [constructor|].
    split; [done|]. by repeat constructor. }
  destruct (is_delim y) eqn:Hy.
  - cbn [words]. rewrite Hy.
    apply (Splits_more [] [x] y s); [constructor| |done|].
    + split; [done|]. by repeat constructor.
    + eapply IH; [|done]. simpl; lia.
  - pose proof (words_head_nonempty y s Hy) as Hne.
    assert (Splits (y :: s) (words (y :: s))) as Hs.
    { eapply IH; [|done]. simpl; lia. }
    destruct (words (y :: s)) as [|w ws]; [done|].
    by apply Splits_extend.
Qed.

Lemma words_skip_delims ds s :
  all_delims ds → words (ds ++ s) = words s.
Proof.
  induction 1 as [|d ds Hd _ IH]; [done|].
  cbn [app words]. by rewrite Hd.
Qed.

Lemma words_all_delims s : all_delims s → words s = [].
Proof.
  intros H. rewrite <- (app_nil_r s). by rewrite words_skip_delims.
Qed.

Lemma words_first_word w rest :
  is_word w →
  (∀ c rest', rest = c :: rest' → is_delim c = true) →
  words (w ++ rest) = w :: words rest.
Proof.
  intros [Hne Hw] Hrest. induction Hw as [|x w Hx Hw IH]; [done|].
  clear Hne. cbn [app words]. rewrite Hx.
  destruct w as [|y w].
  - cbn [app]. destruct rest as [|c rest']; [done|].
    by rewrite (Hrest c rest').
  - cbn [app] in *. inversion Hw as [|? ? Hy _]; subst.
    rewrite Hy. by rewrite IH.
Qed.

(** A line splits in one way only. *)
Lemma Splits_words s ts : Splits s ts → ts = words s.
Proof.
  induction 1 as [ds Hds|ds w Hds Hw|ds w d rest ts Hds Hw Hd _ IH].
  - by rewrite words_all_delims.
  - rewrite words_skip_delims by done.
    rewrite <- (app_nil_r w) at 2. by rewrite words_first_word.
  - rewrite words_skip_delims by done.
    rewrite words_first_word; [|done|by intros c rest' [= -> _]].
    assert (words (d :: rest) = words rest) as ->; [|by rewrite IH].
    cbn [words]. by rewrite Hd.
Qed.

(** C6. For every line buffer and every argument array of [MAX_ARGS]
    slots, the tokenizer stores the first [MAX_ARGS - 1] words of the line,
    in order, drops the words beyond that bound, stores NULL right after
    the last kept word, inside the array, and returns the number of words
    kept.  The words are the one way to split the line on runs of
    delimiters, the delimiters being space, tab and newline; a line made
    of delimiters only (the empty line included) gives zero tokens. *)
Theorem parse_input_tokenizes (line : cstr) (args : argv) :
  length args = MAX_ARGS →
  let kept := take (MAX_ARGS - 1) (words line) in
  Splits line (words line) ∧
  parse_input line args =
    (length kept, (Some <$> kept) ++ None :: drop (S (length kept)) args) ∧
  length kept ≤ MAX_ARGS - 1 ∧
  length (parse_input line args).2 = MAX_ARGS ∧
  (parse_input line args).2 !! (parse_input line args).1 = Some None ∧
  argv_strings (parse_input line args).2 = kept ∧
  (all_delims line → (parse_input line args).1 = 0) ∧
  (∀ ts, Splits line ts → ts = words line) ∧
  (∀ c, is_delim c = true ↔ c = SPACE ∨ c = TAB ∨ c = NL).
Proof.
  intros Hlen kept.
  pose proof (words_Splits line) as Hs.
  pose proof (parse_input_splits line (words line) args Hs Hlen) as E.
  cbn zeta in E. fold kept in E.
  assert (length kept ≤ MAX_ARGS - 1) as Hk.
  { subst kept. rewrite length_take. lia. }
  rewrite E. cbn [fst snd].
  repeat split; try done.
  - rewrite length_app, length_fmap. cbn [length].
    rewrite length_drop. unfold MAX_ARGS in *. lia.
  - rewrite lookup_app_r by (rewrite length_fmap; lia).
    by rewrite length_fmap, Nat.sub_diag.
  - apply argv_strings_sentinel.
  - intros Hd. subst kept. by rewrite (words_all_delims line Hd).
  - apply Splits_words.
  - apply is_delim_cases.
  - apply is_delim_cases.
Qed.

Lemma parse_input_tokenizes_witness :
  length (replicate 10 (@None cstr)) = MAX_ARGS ∧
  argv_strings
    (parse_input (cs "a  bb c d e f g h i j k") (replicate 10 None)).2 =
  cs <$> ["a"; "bb"; "c"; "d"; "e"; "f"; "g"; "h"; "i"]%string.
Proof.
  split; [reflexivity|].
  exact (proj1 (proj2 (proj2 (proj2 (proj2 (proj2
    (parse_input_tokenizes (cs "a  bb c d e f g h i j k")
       (replicate 10 None) eq_refl))))))).
Defined.

(** ** The history buffer *)

Lemma from_slot_length i (h : list (option cstr)) :
  i ≤ length h → length (from_slot i h) = length h.
Proof.
  intros Hi. unfold from_slot.
  rewrite length_app, length_drop, length_take. lia.
Qed.

(** Storing at slot [i] and moving to the next slot drops the first
    element of the circular reading and appends the new one. *)
Lemma from_slot_store i x (h : list (option cstr)) :
  length h = HISTORY_COUNT → i < HISTORY_COUNT →
  from_slot ((i + 1) mod HISTORY_COUNT) (<[i := x]> h) =
  drop 1 (from_slot i h) ++ [x].
Proof.
  intros Hlen Hi. unfold from_slot.
  assert (is_Some (h !! i)) as [y Hy] by (apply lookup_lt_is_Some; lia).
  rewrite (drop_S h y i Hy). cbn [app skipn]. rewrite drop_0.
  destruct (decide (i + 1 = HISTORY_COUNT)) as [E|E].
  - rewrite E, Nat.Div0.mod_same. rewrite drop_0, take_0, app_nil_r.
    rewrite (drop_ge h (S i)) by lia. cbn [app].
    rewrite <- (take_drop i h) at 1.
    rewrite insert_app_r_alt by (rewrite length_take; lia).
    rewrite length_take, Nat.min_l, Nat.sub_diag by lia.
    rewrite (drop_S h y i Hy). cbn [insert list_insert].
    rewrite (drop_ge h (S i)) by lia. done.
  - rewrite Nat.mod_small by lia.
    rewrite drop_insert_lt by lia.
    replace (i + 1) with (S i) by lia.
    rewrite (take_S_r _ _ x) by (apply list_lookup_insert_eq; lia).
    rewrite take_insert_ge by lia.
    by rewrite app_assoc.
Qed.

Lemma window_length cmds :
  length (window cmds) = length cmds `min` HISTORY_COUNT.
Proof. unfold window. rewrite length_drop. lia. Qed.

Lemma window_snoc cmds x :
  window (cmds ++ [x]) =
  if decide (length cmds < HISTORY_COUNT) then window cmds ++ [x]
  else drop 1 (window cmds) ++ [x].
Proof.
  unfold window, HISTORY_COUNT. rewrite length_app. cbn [length].
  case_decide as H.
  - replace (length cmds + 1 - 10) with 0 by lia.
    replace (length cmds - 10) with 0 by lia. done.
  - rewrite drop_drop.
    replace (length cmds + 1 - 10)
      with (length cmds - 10 + 1) by lia.
    rewrite drop_app_le by lia. done.
Qed.

Lemma from_slot_lookup start j (h : list (option cstr)) :
  length h = HISTORY_COUNT → start < HISTORY_COUNT → j < HISTORY_COUNT →
  from_slot start h !! j = h !! ((start + j) mod HISTORY_COUNT).
Proof.
  intros Hlen Hs Hj. unfold from_slot.
  destruct (decide (start + j < HISTORY_COUNT)) as [H|H].
  - rewrite lookup_app_l by (rewrite length_drop; lia).
    rewrite lookup_drop. by rewrite Nat.mod_small.
  - rewrite lookup_app_r by (rewrite length_drop; lia).
    rewrite length_drop, lookup_take_lt by lia.
    f_equal. unfold HISTORY_COUNT in *.
    assert ((start + j) mod 10 = start + j - 10) as ->; [|lia].
    symmetry. apply (Nat.mod_unique _ _ 1); lia.
Qed.

Lemma history_inv_initial : history_inv [] initial_state.
Proof. by repeat split. Qed.

Lemma history_inv_add cmds st x :
  history_inv cmds st → history_inv (cmds ++ [x]) (add_to_history x st).
Proof.
  intros (Hidx & Hlen & Hrot).
  assert (history_index st < HISTORY_COUNT) as Hlt.
  { rewrite Hidx. by apply Nat.mod_upper_bound. }
  unfold history_inv, add_to_history. cbn [history history_index].
  split; [|split].
  - rewrite Hidx, length_app. cbn [length].
    by rewrite Nat.Div0.add_mod_idemp_l.
  - by rewrite length_insert.
  - rewrite from_slot_store by done. rewrite Hrot.
    pose proof (window_length cmds) as Hw.
    rewrite window_snoc. case_decide as Hc.
    + rewrite length_app. cbn [length].
      replace (HISTORY_COUNT - length (window cmds))
        with (S (HISTORY_COUNT - (length (window cmds) + 1))) by lia.
      cbn [replicate app skipn]. rewrite drop_0.
      by rewrite fmap_app, app_assoc.
    + rewrite length_app, length_drop. cbn [length].
      replace (HISTORY_COUNT - length (window cmds)) with 0 by lia.
      replace (HISTORY_COUNT - (length (window cmds) - 1 + 1)) with 0
        by (unfold HISTORY_COUNT in *; lia).
      cbn [replicate app].
      by rewrite fmap_app, fmap_drop.
Qed.

Lemma record_all_snoc cmds x st :
  record_all (cmds ++ [x]) st = add_to_history x (record_all cmds st).
Proof. unfold record_all. by rewrite foldl_app. Qed.

Lemma history_inv_record_all cmds :
  history_inv cmds (record_all cmds initial_state).
Proof.
  induction cmds as [|x cmds IH] using rev_ind.
  - apply history_inv_initial.
  - rewrite record_all_snoc. by apply history_inv_add.
Qed.

Lemma next_slot start j :
  ((start + j) mod HISTORY_COUNT + 1) mod HISTORY_COUNT =
  (start + S j) mod HISTORY_COUNT.
Proof.
  rewrite Nat.Div0.add_mod_idemp_l. f_equal. lia.
Qed.

Lemma slot_back start k :
  start < HISTORY_COUNT → 0 < k ≤ HISTORY_COUNT →
  ((start + k) mod HISTORY_COUNT =? start) = (k =? HISTORY_COUNT).
Proof.
  intros Hs Hk. unfold HISTORY_COUNT in *.
  destruct (decide (start + k < 10)) as [H|H].
  - rewrite Nat.mod_small by done.
    destruct (Nat.eqb_spec (start + k) start), (Nat.eqb_spec k 10); lia.
  - assert ((start + k) mod 10 = start + k - 10) as ->.
    { symmetry. apply (Nat.mod_unique _ _ 1); lia. }
    destruct (Nat.eqb_spec (start + k - 10) start), (Nat.eqb_spec k 10); lia.
Qed.

(** The loop of [show_history], [j] slots after its start. *)
Lemma show_loop_from fuel : ∀ j (h : list (option cstr)) start count,
  length h = HISTORY_COUNT → start < HISTORY_COUNT →
  j < HISTORY_COUNT → HISTORY_COUNT - j ≤ fuel → count ≤ j →
  show_loop fuel h start ((start + j) mod HISTORY_COUNT) count =
  print_slots (S count) (drop j (from_slot start h)).
Proof.
  induction fuel as [|fuel IH]; intros j h start count Hlen Hs Hj Hfuel Hc.
  { lia. }
  assert (is_Some (from_slot start h !! j)) as [e He].
  { apply lookup_lt_is_Some. rewrite from_slot_length; lia. }
  rewrite (drop_S _ e j He).
  rewrite from_slot_lookup in He by done.
  cbn [show_loop]. rewrite He. cbn [default].
  rewrite next_slot, slot_back by (done || lia).
  assert (∀ count', count' ≤ S j →
    (if negb (S j =? HISTORY_COUNT) && (count' <? HISTORY_COUNT)
     then show_loop fuel h start ((start + S j) mod HISTORY_COUNT) count'
     else Ret tt) =
    print_slots (S count') (drop (S j) (from_slot start h))) as Hnext.
  { intros count' Hc'.
    destruct (decide (S j = HISTORY_COUNT)) as [E|E].
    - rewrite E, Nat.eqb_refl. cbn [negb andb].
      rewrite drop_ge by (rewrite from_slot_length; lia). done.
    - rewrite (proj2 (Nat.eqb_neq _ _) E). cbn [negb andb].
      assert ((count' <? HISTORY_COUNT) = true) as ->
        by (apply Nat.ltb_lt; lia).
      apply IH; lia. }
  destruct e as [cmd|]; cbn [print_slots].
  - rewrite Nat.add_1_r. f_equal. apply Hnext. lia.
  - apply Hnext. lia.
Qed.

Lemma print_slots_window n k (w : list cstr) :
  print_slots n (replicate k None ++ (Some <$> w)) = print_lines n w.
Proof.
  induction k as [|k IH]; cbn [replicate app print_slots]; [|done].
  revert n. induction w as [|c w IHw]; intros n; [done|].
  rewrite fmap_cons. cbn [print_slots print_lines]. by rewrite IHw.
Qed.

(** Any budget of at least [HISTORY_COUNT] iterations gives the same
    program, which does not contain [Spin]. *)
Lemma show_history_fuel_enough cmds fuel :
  HISTORY_COUNT ≤ fuel →
  show_history_fuel fuel (record_all cmds initial_state) =
  print_lines 1 (window cmds).
Proof.
  intros Hfuel.
  destruct (history_inv_record_all cmds) as (Hidx & Hlen & Hrot).
  set (st := record_all cmds initial_state) in *.
  assert (history_index st < HISTORY_COUNT) as Hlt.
  { rewrite Hidx. by apply Nat.mod_upper_bound. }
  unfold show_history_fuel.
  pose proof (show_loop_from fuel 0 (history st) (history_index st) 0) as E.
  rewrite Nat.add_0_r, Nat.mod_small, drop_0 in E by done.
  rewrite E by (done || unfold HISTORY_COUNT in *; lia).
  rewrite Hrot. apply print_slots_window.
Qed.

(** C8. After any sequence of commands has been recorded from the initial
    state, [show_history] prints the most recent [HISTORY_COUNT] of them,
    oldest first, in the order entered, numbered from 1 (with any iteration
    budget of at least [HISTORY_COUNT]); and once [HISTORY_COUNT] commands
    have been recorded, the slot the next recording overwrites holds the
    oldest command of the window, which leaves the window. *)
Theorem history_window (cmds : list cstr) :
  let st := record_all cmds initial_state in
  (∀ fuel, HISTORY_COUNT ≤ fuel →
     show_history_fuel fuel st = print_lines 1 (window cmds)) ∧
  show_history st = print_lines 1 (window cmds) ∧
  length (window cmds) = length cmds `min` HISTORY_COUNT ∧
  (HISTORY_COUNT ≤ length cmds →
     history st !! history_index st = Some (head (window cmds)) ∧
     ∀ x, history (record_all (cmds ++ [x]) initial_state) =
            <[history_index st := Some x]> (history st) ∧
          window (cmds ++ [x]) = drop 1 (window cmds) ++ [x]).
Proof.
  intros st. split; [|split; [|split]].
  - intros fuel Hfuel. by apply show_history_fuel_enough.
  - by apply show_history_fuel_enough.
  - apply window_length.
  - intros Hfull.
    destruct (history_inv_record_all cmds) as (Hidx & Hlen & Hrot).
    fold st in Hidx, Hlen, Hrot.
    assert (history_index st < HISTORY_COUNT) as Hlt.
    { rewrite Hidx. by apply Nat.mod_upper_bound. }
    pose proof (window_length cmds) as Hw.
    split.
    + pose proof (from_slot_lookup (history_index st) 0 (history st)) as E.
      rewrite Nat.add_0_r, Nat.mod_small in E by done.
      rewrite <- E by (done || unfold HISTORY_COUNT; lia).
      rewrite Hrot.
      replace (HISTORY_COUNT - length (window cmds)) with 0 by lia.
      cbn [replicate app].
      destruct (window cmds) as [|c0 w]; [|done].
      unfold HISTORY_COUNT in *. cbn [length] in Hw. lia.
    + intros x. split.
      * by rewrite record_all_snoc.
      * rewrite window_snoc. case_decide; [lia|done].
Qed.

Lemma history_window_witness :
  HISTORY_COUNT ≤ 10 ∧
  show_history_fuel 10
    (record_all (cs <$> ["a"; "b"; "c"; "d"; "e"; "f"; "g"; "h"; "i"; "j";
                         "k"; "l"]%string) initial_state) =
  print_lines 1 (cs <$> ["c"; "d"; "e"; "f"; "g"; "h"; "i"; "j"; "k";
                         "l"]%string).
Proof.
  split; [reflexivity|].
  exact (proj1 (history_window
    (cs <$> ["a"; "b"; "c"; "d"; "e"; "f"; "g"; "h"; "i"; "j"; "k";
             "l"]%string)) 10 (le_n _)).
Defined.

(** ** Searching a line *)

Lemma starts_with_spec needle s :
  starts_with needle s = true ↔ ∃ post, s = needle ++ post.
Proof.
  revert s. induction needle as [|a needle IH]; intros s; cbn [starts_with].
  - split; [eauto|done].
  - destruct s as [|b s].
    + split; [done|]. by intros [post E].
    + rewrite andb_true_iff, Ascii.eqb_eq, IH. split.
      * intros [-> [post ->]]. by exists post.
      * intros [post E]. simpl in E. inversion E; subst. eauto.
Qed.

Lemma strstr_unfold s needle :
  strstr s needle =
  if starts_with needle s then Some 0
  else match s with
       | [] => None
       | _ :: s' => S <$> strstr s' needle
       end.
Proof. by destruct s. Qed.

Lemma strstr_Some s needle : ∀ i,
  strstr s needle = Some i →
  s = take i s ++ needle ++ drop (i + length needle) s ∧
  ∀ pre post, s = pre ++ needle ++ post → i ≤ length pre.
Proof.
  induction s as [|x s IH]; intros i; rewrite strstr_unfold;
    destruct (starts_with needle _) eqn:Hp.
  - intros [= <-]. apply starts_with_spec in Hp as [post E].
    split; [|lia]. rewrite take_0. cbn [app Nat.add].
    rewrite E at 1. f_equal. rewrite E. by rewrite drop_app_length.
  - done.
  - intros [= <-]. apply starts_with_spec in Hp as [post E].
    split; [|lia]. rewrite take_0. cbn [app Nat.add].
    rewrite E at 1. f_equal. rewrite E. by rewrite drop_app_length.
  - destruct (strstr s needle) as [i'|] eqn:Hs; [|done].
    intros [= <-]. destruct (IH i' eq_refl) as [E Hmin]. split.
    + cbn [take firstn skipn Nat.add app]. by rewrite <- E.
    + intros [|y pre] post E'.
      * assert (starts_with needle (x :: s) = true); [|congruence].
        apply starts_with_spec. by exists post.
      * simpl in E'. inversion E'; subst y. cbn [length].
        pose proof (Hmin pre post ltac:(done)). lia.
Qed.

Lemma strstr_None s needle :
  strstr s needle = None → ¬ occurs needle s.
Proof.
  induction s as [|x s IH]; rewrite strstr_unfold;
    destruct (starts_with needle _) eqn:Hp; try done.
  - intros _ (pre & post & E). destruct pre; [|done].
    assert (starts_with needle [] = true); [|congruence].
    apply starts_with_spec. by exists post.
  - destruct (strstr s needle) eqn:Hs; [done|]. intros _ (pre & post & E).
    destruct pre as [|y pre].
    + assert (starts_with needle (x :: s) = true); [|congruence].
      apply starts_with_spec. by exists post.
    + simpl in E. inversion E; subst. apply IH; [done|]. by exists pre, post.
Qed.

(** The first occurrence is where [strstr] points. *)
Lemma strstr_first needle s l r :
  splits_at_first needle s l r →
  strstr s needle = Some (length l) ∧
  take (length l) s = l ∧ drop (length l + length needle) s = r.
Proof.
  intros [E Hmin].
  assert (take (length l) s = l) as Hl.
  { rewrite E. by rewrite take_app_length. }
  assert (drop (length l + length needle) s = r) as Hr.
  { rewrite E, app_assoc, <- length_app. by rewrite drop_app_length. }
  split; [|done].
  destruct (strstr s needle) as [i|] eqn:Hs.
  - destruct (strstr_Some s needle i Hs) as [E' Hmin'].
    pose proof (Hmin' l r E) as H1.
    pose proof (Hmin _ _ E') as H2.
    rewrite length_take in H2. f_equal. lia.
  - exfalso. apply (strstr_None s needle Hs). by exists l, r.
Qed.

Lemma splits_at_first_strstr needle s i :
  strstr s needle = Some i →
  splits_at_first needle s (take i s) (drop (i + length needle) s).
Proof.
  intros E. destruct (strstr_Some s needle i E) as [Hs Hmin].
  split; [done|]. intros pre post Hp.
  pose proof (Hmin pre post Hp). rewrite length_take. lia.
Qed.

Lemma occurs_strstr needle s i : strstr s needle = Some i → occurs needle s.
Proof.
  intros E. destruct (strstr_Some s needle i E) as [Hs _].
  by exists (take i s), (drop (i + length needle) s).
Qed.

Lemma strchr_strstr s c : strchr s c = strstr s [c].
Proof.
  induction s as [|x s IH]; [done|].
  rewrite strstr_unfold. cbn [strchr starts_with].
  rewrite andb_true_r, (Ascii.eqb_sym c x).
  destruct (Ascii.eqb x c); [done|]. by rewrite IH.
Qed.

Lemma strcspn_strchr s c i :
  strchr s c = Some i → strcspn s [c] = i.
Proof.
  revert i. induction s as [|x s IH]; intros i; [done|].
  cbn [strchr strcspn in_set existsb]. rewrite orb_false_r.
  destruct (Ascii.eqb x c); [by intros [= <-]|].
  destruct (strchr s c) as [i'|]; [|done].
  intros [= <-]. by rewrite (IH i' eq_refl).
Qed.

Lemma streq_eq a b : streq a b = true ↔ a = b.
Proof.
  revert b. induction a as [|x a IH]; intros [|y b]; cbn [streq]; try done.
  rewrite andb_true_iff, Ascii.eqb_eq, IH. split; [by intros [-> ->]|].
  by intros [= -> ->].
Qed.

Lemma streq_decide a b : streq a b = bool_decide (a = b).
Proof.
  destruct (streq a b) eqn:E.
  - apply streq_eq in E. by rewrite bool_decide_eq_true_2.
  - rewrite bool_decide_eq_false_2; [done|]. intros H%streq_eq. congruence.
Qed.

(** ** The dispatcher *)

Lemma strstr_absent s needle : ¬ occurs needle s → strstr s needle = None.
Proof.
  intros Hno. destruct (strstr s needle) as [i|] eqn:E; [|done].
  destruct Hno. destruct (strstr_Some s needle i E) as [Hs _].
  by exists (take i s), (drop (i + length needle) s).
Qed.

Lemma parse_input_args text (junk : argv) :
  length junk = MAX_ARGS →
  (parse_input text junk).2 = args_of (tokens text) junk.
Proof.
  intros Hlen.
  by rewrite (parse_input_splits text (words text) junk (words_Splits _) Hlen).
Qed.

Lemma args_of_length ts (old : argv) :
  length old = MAX_ARGS → length ts ≤ MAX_ARGS - 1 →
  length (args_of ts old) = MAX_ARGS.
Proof.
  intros Hlen Hts. unfold args_of.
  rewrite length_app, length_fmap. cbn [length]. rewrite length_drop.
  unfold MAX_ARGS in *. lia.
Qed.

Lemma tokens_length text : length (tokens text) ≤ MAX_ARGS - 1.
Proof. unfold tokens. rewrite length_take. lia. Qed.

Lemma arg_at_0 ts (old : argv) : arg_at (args_of ts old) 0 = head ts.
Proof. by destruct ts. Qed.

Lemma argv_strings_args_of ts (old : argv) :
  argv_strings (args_of ts old) = ts.
Proof. apply argv_strings_sentinel. Qed.

(** The code after the background test is [simple_command]. *)
Lemma command_tail (junk : argv) st text background :
  length junk = MAX_ARGS →
  (let args := (parse_input text junk).2 in
   match arg_at args 0 with
   | None => Ret (Continue, st)
   | Some a0 =>
       if streq a0 (cs "cd") then
         run_builtin_cd args ;; Ret (Continue, st)
       else if streq a0 (cs "pwd") then
         run_builtin_pwd ;; Ret (Continue, st)
       else if streq a0 (cs "exit") then Ret (Break, st)
       else if streq a0 (cs "history") then
         show_history st ;; Ret (Continue, st)
       else
         execute_command args background ;; Ret (Continue, st)
   end) = simple_command junk st text background.
Proof.
  intros Hlen. cbn zeta. rewrite parse_input_args by done.
  unfold simple_command. rewrite arg_at_0.
  destruct (tokens text) as [|name ts]; [done|]. cbn [head].
  rewrite !streq_decide.
  repeat (case_bool_decide; case_decide; try done).
Qed.

Section Dispatch.

Variable junk_args : argv.
Variable junk_status : Z.
Hypothesis junk_args_length : length junk_args = MAX_ARGS.

Variable st : shell_state.
Variable line : cstr.
Hypothesis not_empty : char_at line 0 ≠ NL.

Let st' := add_to_history line st.
Let body := main_body junk_args junk_status st line.

Lemma not_empty_eqb : Ascii.eqb (char_at line 0) NL = false.
Proof. by apply Ascii.eqb_neq. Qed.

Lemma dispatch_and l r :
  splits_at_first (cs "&&") line l r →
  body = (handle_and junk_args junk_status l r ;; Ret (Continue, st')).
Proof.
  intros Hs. destruct (strstr_first _ _ _ _ Hs) as (E & Hl & Hr).
  unfold body, main_body. rewrite not_empty_eqb, E.
  cbn [length cs list_ascii_of_string] in Hr.
  by rewrite Hl, Hr.
Qed.

Lemma dispatch_pipe l r :
  ¬ occurs (cs "&&") line →
  splits_at_first [BAR] line l r →
  body = (handle_pipe junk_args l r ;; Ret (Continue, st')).
Proof.
  intros Hno Hs. destruct (strstr_first _ _ _ _ Hs) as (E & Hl & Hr).
  unfold body, main_body.
  rewrite not_empty_eqb, (strstr_absent _ _ Hno), strchr_strstr, E.
  cbn [length] in Hr. by rewrite Hl, Hr.
Qed.

Lemma dispatch_background l r :
  ¬ occurs (cs "&&") line → ¬ occurs [BAR] line →
  splits_at_first [AMP] line l r →
  body = simple_command junk_args st' l true.
Proof.
  intros Hno1 Hno2 Hs. destruct (strstr_first _ _ _ _ Hs) as (E & Hl & Hr).
  unfold body, main_body.
  rewrite not_empty_eqb, (strstr_absent _ _ Hno1).
  rewrite (strchr_strstr _ BAR), (strstr_absent _ _ Hno2).
  rewrite <- strchr_strstr in E. rewrite E.
  change (cs "&") with [AMP]. rewrite (strcspn_strchr _ _ _ E), Hl.
  by apply command_tail.
Qed.

Lemma dispatch_plain :
  ¬ occurs (cs "&&") line → ¬ occurs [BAR] line → ¬ occurs [AMP] line →
  body = simple_command junk_args st' line false.
Proof.
  intros Hno1 Hno2 Hno3. unfold body, main_body.
  rewrite not_empty_eqb, (strstr_absent _ _ Hno1).
  rewrite (strchr_strstr _ BAR), (strstr_absent _ _ Hno2).
  rewrite (strchr_strstr _ AMP), (strstr_absent _ _ Hno3).
  by apply command_tail.
Qed.

End Dispatch.

(** ** Exit statuses *)

Lemma status_success_bytes :
  forallb (λ c, let t := Normal (Z.of_nat c) in
     Bool.eqb (WIFEXITED (wstatus t) && (WEXITSTATUS (wstatus t) =? 0)%Z)
              (succeeded t)) (seq 0 256) = true ∧
  forallb (λ s, negb (WIFEXITED (wstatus (Signaled (Z.of_nat s) false))) &&
                negb (WIFEXITED (wstatus (Signaled (Z.of_nat s) true))))
          (seq 1 126) = true.
Proof. split; vm_compute; reflexivity. Qed.

(** The test of [handle_and] on a collected status holds exactly for a
    normal termination with code 0. *)
Lemma status_success t :
  valid_termination t →
  WIFEXITED (wstatus t) && (WEXITSTATUS (wstatus t) =? 0)%Z = succeeded t.
Proof.
  destruct status_success_bytes as [Hn Hs].
  rewrite forallb_forall in Hn, Hs.
  destruct t as [code|sig core]; intros Hv; cbn [valid_termination] in Hv.
  - specialize (Hn (Z.to_nat code)). rewrite in_seq, Z2Nat.id in Hn by lia.
    apply Bool.eqb_prop. apply Hn. lia.
  - specialize (Hs (Z.to_nat sig)). rewrite in_seq, Z2Nat.id in Hs by lia.
    cbn [succeeded]. rewrite andb_true_iff, !negb_true_iff in Hs.
    destruct Hs as [H1 H2]; [lia|]. by destruct core; rewrite ?H1, ?H2.
Qed.

Lemma succeeded_iff t : succeeded t = true ↔ t = Normal 0.
Proof.
  destruct t as [code|sig core]; cbn [succeeded]; [|done].
  rewrite Z.eqb_eq. split; [by intros ->|by intros [= ->]].
Qed.

(** ** Runs of the process launcher *)

Lemma run_exec_or_die {A B} w n args msg code (k : A → sys B) :
  run w n (then_ (exec_or_die args msg code) k) =
  Execution (child_process w n args msg code) [].
Proof.
  unfold exec_or_die, child_process. cbn [then_ run].
  destruct (arg_at args 0) as [f|]; [|done].
  by destruct (os_exec w n f (argv_strings args)).
Qed.

(** Recognise the code of a child and replace its run by what it does. *)
Ltac run_children :=
  repeat match goal with
  | |- context [then_ (Execvp (arg_at ?a 0) ?a (Perror ?m (Exit ?c))) ?k] =>
      change (then_ (Execvp (arg_at a 0) a (Perror m (Exit c))) k)
        with (then_ (@exec_or_die unit a m c) k)
  end;
  rewrite ?run_exec_or_die.

(** The caller's side of [execute_command] always returns. *)
Lemma run_execute_command {R} w n args background (x : R) :
  run w n (execute_command args background ;; Ret x) =
  match os_fork w n with
  | None =>
      Execution
        (Process [EvFork (-1); EvPerror "fork failed"] (Returned x)) []
  | Some pid =>
      Execution
        (Process
           [EvFork (Zpos pid);
            if background then EvPrintf BG_FORMAT [PInt (Zpos pid)]
            else EvWaitpid (Zpos pid) false (os_wait w (S n) (Zpos pid))]
           (Returned x))
        [(Zpos pid, child_process w (S n) args "exec error" EXIT_FAILURE)]
  end.
Proof.
  unfold execute_command. cbn [then_ run].
  destruct (os_fork w n) as [pid|]; [|done].
  cbn [Z.eqb Z.ltb Z.compare]. run_children. by destruct background.
Qed.

Lemma right_args (junk : argv) l r :
  length junk = MAX_ARGS →
  (parse_input r (parse_input l junk).2).2 =
  args_of (tokens r) (args_of (tokens l) junk).
Proof.
  intros Hlen. rewrite (parse_input_args l) by done.
  apply parse_input_args, args_of_length; [done|apply tokens_length].
Qed.

(** The conditional executor when the left command was started and its
    status collected. *)
Lemma run_handle_and {R} w n (junk : argv) js l r (x : R) pid status :
  length junk = MAX_ARGS →
  os_fork w n = Some pid →
  os_wait w (S n) (Zpos pid) = Some (pid, status) →
  let left_args := args_of (tokens l) junk in
  let right := execute_command (args_of (tokens r) left_args) false in
  let left_child := (Zpos pid, child_process w (S n) left_args "exec" 1%Z) in
  let collected := EvWaitpid (Zpos pid) true (Some (pid, status)) in
  let right_run := run w (S (S n)) (right ;; Ret x) in
  run w n (handle_and junk js l r ;; Ret x) =
  if WIFEXITED status && (WEXITSTATUS status =? 0)%Z then
    Execution
      (Process (EvFork (Zpos pid) :: collected :: trace (self right_run))
         (ending (self right_run)))
      (left_child :: children right_run)
  else
    Execution (Process [EvFork (Zpos pid); collected] (Returned x))
      [left_child].
Proof.
  intros Hlen Hfork Hwait. cbn zeta.
  unfold handle_and. cbn [then_ run]. rewrite Hfork.
  cbn [Z.eqb]. run_children. cbn [then_ run after]. rewrite Hwait.
  cbn [fmap option_fmap option_map snd default from_option id].
  rewrite right_args by done. rewrite parse_input_args by done.
  unfold after. cbn [self children trace ending app].
  by destruct (WIFEXITED status && (WEXITSTATUS status =? 0)%Z).
Qed.

(** C1. For every input line containing the AND marker, split at its first
    occurrence into [l] and [r]: once the left command has been started
    and its status collected, the right command is tokenized and handed to
    the process launcher in waiting mode if the left command terminated
    normally with code 0; after any other termination (non-zero code,
    signal) the dispatcher returns to the loop having done nothing more.
    So a second launch is made if and only if the termination is normal
    with code 0, and that launch never announces a background process. *)
Theorem and_runs_right_iff_left_succeeds
    (junk : argv) js st line l r w n pid t :
  length junk = MAX_ARGS →
  char_at line 0 ≠ NL →
  splits_at_first (cs "&&") line l r →
  os_fork w n = Some pid →
  os_wait w (S n) (Zpos pid) = Some (pid, wstatus t) →
  valid_termination t →
  let st' := add_to_history line st in
  let e := run w n (main_body junk js st line) in
  let left_args := args_of (tokens l) junk in
  let right_args := args_of (tokens r) left_args in
  let right_run :=
    run w (S (S n))
      (execute_command right_args false ;; Ret (Continue, st')) in
  let collected := EvWaitpid (Zpos pid) true (Some (pid, wstatus t)) in
  let left_child := (Zpos pid, child_process w (S n) left_args "exec" 1%Z) in
  e = (if succeeded t then
         Execution
           (Process (EvFork (Zpos pid) :: collected :: trace (self right_run))
              (Returned (Continue, st')))
           (left_child :: children right_run)
       else
         Execution
           (Process [EvFork (Zpos pid); collected] (Returned (Continue, st')))
           [left_child]) ∧
  argv_strings left_args = tokens l ∧
  argv_strings right_args = tokens r ∧
  existsb is_fork (trace (self right_run)) = true ∧
  existsb is_bg_line (trace (self right_run)) = false ∧
  (existsb is_fork (drop 2 (trace (self e))) = true ↔ t = Normal 0).
Proof.
  intros Hlen Hne Hsplit Hfork Hwait Hvalid. cbn zeta.
  rewrite (dispatch_and junk js st line Hne l r Hsplit).
  rewrite (run_handle_and w n junk js l r _ pid (wstatus t)) by done.
  rewrite status_success by done.
  rewrite run_execute_command.
  split; [by destruct (succeeded t), (os_fork w (S (S n)))|].
  split; [apply argv_strings_args_of|].
  split; [apply argv_strings_args_of|].
  split; [by destruct (os_fork w (S (S n)))|].
  split; [by destruct (os_fork w (S (S n)))|].
  rewrite <- succeeded_iff.
  destruct (succeeded t); [|done].
  by destruct (os_fork w (S (S n))).
Qed.

Lemma and_runs_right_iff_left_succeeds_witness :
  length blank_args = MAX_ARGS ∧
  valid_termination (Normal 0) ∧
  (existsb is_fork (drop 2 (trace (self (run os_fine 0
     (main_body blank_args 0 initial_state (ln "true && echo hi"))))))
   = true ↔ Normal 0 = Normal 0).
Proof.
  assert (valid_termination (Normal 0)) as Hv by (cbn; lia).
  split; [reflexivity|]. split; [exact Hv|].
  refine (proj2 (proj2 (proj2 (proj2 (proj2
    (and_runs_right_iff_left_succeeds blank_args 0 initial_state
       (ln "true && echo hi") (cs "true ") (ln " echo hi")
       os_fine 0 100%positive (Normal 0)
       eq_refl ltac:(discriminate) _ eq_refl eq_refl Hv)))))).
  exact (splits_at_first_strstr (cs "&&") (ln "true && echo hi") 5 eq_refl).
Defined.

(** ** Runs of the pipe executor *)

Ltac run_pipe w n l r junk :=
  cbn [Nat.add]; unfold handle_pipe; cbn [then_ run];
  rewrite !parse_input_args by done;
  unfold piped_child, spawned;
  destruct (os_fork w (S n)) as [p1|];
    cbn [fork_ret Z.eqb then_ run];
    (destruct (os_fork w (S (S n))) as [p2|];
     cbn [fork_ret Z.eqb then_ run];
     unfold child_process, after, finish;
     cbn [self children trace ending app];
     destruct (arg_at (args_of (tokens l) junk) 0) as [f1|];
     destruct (arg_at (args_of (tokens r) junk) 0) as [f2|];
     repeat (destruct (os_exec _ _ _ _)); done).

Lemma run_handle_pipe w n (junk : argv) l r :
  length junk = MAX_ARGS →
  run w n (handle_pipe junk l r) =
  Execution (Process (pipe_parent_trace w n) (Returned tt))
    (pipe_children w n junk l r).
Proof.
  intros Hlen. unfold pipe_parent_trace, pipe_children.
  run_pipe w n l r junk.
Qed.

Lemma pipe_parent_order w n :
  precedes is_fork is_close (pipe_parent_trace w n) ∧
  precedes is_close is_wait (pipe_parent_trace w n).
Proof.
  unfold pipe_parent_trace.
  split; intros i j a b Hi Hj Ha Hb;
    do 7 (destruct i as [|i];
          [do 7 (destruct j as [|j]; [simplify_eq/=; lia|]); done|]);
    done.
Qed.

(** C4. In every execution of the pipe executor the orchestrating process
    makes, in this order, the [pipe] call, the two [fork] calls, the two
    [close] calls on its channel descriptors and the two [waitpid] calls,
    the first on the value [fork] returned for the left child and the
    second on the one returned for the right child; then it returns.  So
    both children are spawned before either descriptor is closed, and both
    descriptors are closed before either wait.  Each [fork] that succeeds
    creates the corresponding child. *)
Theorem pipe_spawns_closes_then_waits (junk : argv) l r w n :
  length junk = MAX_ARGS →
  let e := run w n (handle_pipe junk l r) in
  let fds := os_pipe w n in
  let pid1 := fork_ret (os_fork w (1 + n)) in
  let pid2 := fork_ret (os_fork w (2 + n)) in
  trace (self e) =
    [EvPipe fds; EvFork pid1; EvFork pid2;
     EvClose fds.1; EvClose fds.2;
     EvWaitpid pid1 false (os_wait w (5 + n) pid1);
     EvWaitpid pid2 false (os_wait w (6 + n) pid2)] ∧
  ending (self e) = Returned tt ∧
  precedes is_fork is_close (trace (self e)) ∧
  precedes is_close is_wait (trace (self e)) ∧
  children e = pipe_children w n junk l r ∧
  (∀ p1 p2, os_fork w (1 + n) = Some p1 → os_fork w (2 + n) = Some p2 →
     fst <$> children e = [Zpos p1; Zpos p2]).
Proof.
  intros Hlen. cbn zeta. rewrite run_handle_pipe by done.
  cbn [self trace ending children].
  destruct (pipe_parent_order w n) as [H1 H2].
  repeat split; try done.
  intros p1 p2 E1 E2. unfold pipe_children. by rewrite E1, E2.
Qed.

Lemma pipe_spawns_closes_then_waits_witness :
  length blank_args = MAX_ARGS ∧
  trace (self (run os_fine 0
    (handle_pipe blank_args (cs "echo hi ") (ln " wc -w")))) =
  [EvPipe (3, 4)%Z; EvFork 101; EvFork 102; EvClose 3; EvClose 4;
   EvWaitpid 101 false (Some (101%positive, 0%Z));
   EvWaitpid 102 false (Some (102%positive, 0%Z))].
Proof.
  split; [reflexivity|].
  exact (proj1 (pipe_spawns_closes_then_waits blank_args
    (cs "echo hi ") (ln " wc -w") os_fine 0 eq_refl)).
Defined.

(** ** Process duplication failure *)

(** The process launcher reports a failed [fork] and creates nothing. *)
Lemma execute_command_fork_failure w n args background :
  os_fork w n = None →
  run w n (execute_command args background) =
  Execution
    (Process [EvFork (-1); EvPerror "fork failed"] (Returned tt)) [].
Proof. intros E. unfold execute_command. cbn [run]. by rewrite E. Qed.

(** The pipe executor says nothing when its first [fork] fails, and goes
    on to the second [fork], the closes and the waits. *)
Lemma handle_pipe_fork_failure_silent w n (junk : argv) l r :
  length junk = MAX_ARGS →
  os_fork w (1 + n) = None →
  let e := run w n (handle_pipe junk l r) in
  existsb is_perror (trace (self e)) = false ∧
  trace (self e) !! 1 = Some (EvFork (-1)) ∧
  trace (self e) !! 2 = Some (EvFork (fork_ret (os_fork w (2 + n)))) ∧
  trace (self e) !! 5 =
    Some (EvWaitpid (-1) false (os_wait w (5 + n) (-1)%Z)).
Proof.
  intros Hlen E. cbn zeta. rewrite run_handle_pipe by done.
  unfold pipe_parent_trace. rewrite E. by cbn.
Qed.

(** C5. On the failing input: with the process table full, the line
    [ls | wc] makes the pipe executor call [fork] twice, close the
    descriptors and wait on process id -1, with no report of the failure;
    and the line [false && echo hi], when [fork] fails while a finished
    background child is waiting to be collected, makes the conditional
    executor collect that child's status through a wait on -1, report
    nothing, and launch the right command.  The process launcher, on a
    plain command, reports the failure and stops. *)
Theorem fork_failure_unreported_in_pipe_and_conditional :
  run os_no_fork 0 (main_body blank_args 0 initial_state (ln "ls | wc")) =
    Execution
      (Process
         [EvPipe (3, 4)%Z; EvFork (-1); EvFork (-1);
          EvClose 3; EvClose 4;
          EvWaitpid (-1) false None; EvWaitpid (-1) false None]
         (Returned (Continue,
                    add_to_history (ln "ls | wc") initial_state)))
      [] ∧
  trace (self (run os_no_fork_zombie 0
    (main_body blank_args 0 initial_state (ln "false && echo hi")))) =
    [EvFork (-1); EvWaitpid (-1) true (Some (77%positive, 0%Z));
     EvFork 102; EvWaitpid 102 false (Some (102%positive, 0%Z))] ∧
  trace (self (run os_no_fork 0
    (main_body blank_args 0 initial_state (ln "ls")))) =
    [EvFork (-1); EvPerror "fork failed"].
Proof. repeat split; vm_compute; reflexivity. Qed.

(** ** A pipe command without tokens *)

(** C2. On the failing input [ls |]: the right command string holds only
    the newline and tokenizes to zero tokens; the right child redirects its
    standard input and calls [execvp] with a NULL program name, which is
    outside the contract of the call, where the claim asks for a clean,
    reported failure. *)
Theorem pipe_child_execs_null_program :
  (parse_input [NL] blank_args).1 = 0 ∧
  children (run os_fine 0
    (main_body blank_args 0 initial_state (ln "ls |"))) =
    [(101%Z,
      Process
        [EvDup2 4 1; EvClose 3; EvClose 4;
         EvExecvp (Some (cs "ls")) [cs "ls"]]
        (Replaced (cs "ls") [cs "ls"]));
     (102%Z,
      Process
        [EvDup2 3 0; EvClose 4; EvClose 3; EvExecvp None []]
        Undefined)].
Proof. split; vm_compute; reflexivity. Qed.

(** In general: a pipe child whose command has no token ends outside the
    contract of [execvp], with no report. *)
Lemma piped_child_without_tokens {R} w n setup (junk : argv) text msg :
  tokens text = [] →
  @piped_child R w n setup (args_of (tokens text) junk) msg =
  Process (setup ++ [EvExecvp None []]) Undefined.
Proof. intros E. unfold piped_child, child_process. by rewrite E. Qed.

(** ** Background launches *)

(** C7. For every background launch that creates a child, the caller makes
    no [waitpid] call: after [fork] it prints the one line
    [[BG] Process ID: <pid>] with the process id of the child and returns
    to its caller, with no value kept; what the caller does depends on the
    answer of [fork] only, not on what becomes of the child. *)
Theorem background_launch_returns_at_once args w n pid :
  os_fork w n = Some pid →
  let e := run w n (execute_command args true) in
  self e =
    Process [EvFork (Zpos pid); EvPrintf BG_FORMAT [PInt (Zpos pid)]]
      (Returned tt) ∧
  children e =
    [(Zpos pid, child_process w (S n) args "exec error" EXIT_FAILURE)] ∧
  existsb is_wait (trace (self e)) = false ∧
  stdout_of (trace (self e)) =
    cs "[BG] Process ID: " ++ decimal (Zpos pid) ++ [NL] ∧
  (∀ w', os_fork w' n = Some pid →
     self (run w' n (execute_command args true)) = self e).
Proof.
  intros E. cbn zeta.
  assert (∀ w', os_fork w' n = Some pid →
    run w' n (execute_command args true) =
    Execution
      (Process [EvFork (Zpos pid); EvPrintf BG_FORMAT [PInt (Zpos pid)]]
         (Returned tt))
      [(Zpos pid, child_process w' (S n) args "exec error" EXIT_FAILURE)])
    as Hrun.
  { intros w' E'. unfold execute_command. cbn [run]. rewrite E'.
    cbn [Z.eqb Z.ltb Z.compare negb run].
    unfold child_process, after, finish.
    destruct (arg_at args 0) as [f|]; [|done].
    by destruct (os_exec w' (S n) f (argv_strings args)). }
  rewrite (Hrun w E). cbn [self children trace].
  do 3 (split; [reflexivity|]).
  split; [cbn [stdout_of]; rewrite app_nil_r; reflexivity|].
  intros w' E'. by rewrite (Hrun w' E').
Qed.

Lemma background_launch_returns_at_once_witness :
  os_fork os_fine 0 = Some 100%positive ∧
  stdout_of (trace (self (run os_fine 0
    (execute_command (args_of [cs "sleep"; cs "5"] blank_args) true)))) =
  ln "[BG] Process ID: 100".
Proof.
  split; [reflexivity|].
  exact (proj1 (proj2 (proj2 (proj2
    (background_launch_returns_at_once
       (args_of [cs "sleep"; cs "5"] blank_args) os_fine 0 100%positive
       eq_refl))))).
Defined.

(** ** Programs that launch nothing *)

Lemma no_launch_then {A B} (p : sys A) (k : A → sys B) :
  no_launch p → (∀ a, no_launch (k a)) → no_launch (then_ p k).
Proof.
  intros Hp Hk. induction Hp; cbn [then_]; try (by constructor); auto.
Qed.

Lemma no_launch_run {R} (p : sys R) :
  no_launch p →
  ∀ w n,
    children (run w n p) = [] ∧
    existsb is_fork (trace (self (run w n p))) = false ∧
    existsb is_bg_line (trace (self (run w n p))) = false.
Proof.
  induction 1 as [r|code| |fmt args k Hfmt _ IH|msg k _ IH|name k _ IH
                  |path k _ IH|k _ IH|name value k _ IH];
    intros w n; cbn [run]; unfold after, finish;
    cbn [self children trace ending existsb is_fork is_bg_line orb];
    try done; try apply IH.
  destruct (IH w (S n)) as (H1 & H2 & H3).
  apply String.eqb_neq in Hfmt. by rewrite Hfmt.
Qed.

Lemma no_launch_cd args : no_launch (run_builtin_cd args).
Proof.
  unfold run_builtin_cd.
  assert (∀ target, no_launch
    (Chdir target (λ r,
       if (r =? 0)%Z then
         Getcwd (λ cwd,
           match cwd with
           | Some d => Setenv "PWD" d (Ret tt)
           | None => Ret tt
           end)
       else Perror "cd error" (Ret tt)))) as H.
  { intros target. constructor. intros r. destruct (r =? 0)%Z.
    - constructor. intros [d|]; repeat constructor.
    - repeat constructor. }
  destruct (arg_at args 1); [apply H|]. constructor. apply H.
Qed.

Lemma no_launch_pwd : no_launch run_builtin_pwd.
Proof.
  unfold run_builtin_pwd. constructor. intros [d|]; repeat constructor.
  done.
Qed.

Lemma no_launch_show_loop fuel : ∀ h start idx count,
  no_launch (show_loop fuel h start idx count).
Proof.
  induction fuel as [|fuel IH]; intros h start idx count; cbn [show_loop].
  { constructor. }
  assert (∀ count',
    no_launch
      (if negb ((idx + 1) mod HISTORY_COUNT =? start) &&
          (count' <? HISTORY_COUNT)
       then show_loop fuel h start ((idx + 1) mod HISTORY_COUNT) count'
       else Ret tt)) as Hnext.
  { intros count'. destruct (_ && _); [apply IH|constructor]. }
  destruct (default None (h !! idx)); [|apply Hnext].
  constructor; [done|apply Hnext].
Qed.

Lemma no_launch_history st : no_launch (show_history st).
Proof. apply no_launch_show_loop. Qed.

(** ** Classification of a line *)

(** C3 (amended). For every input line that does not begin with a newline,
    the dispatcher records the line and classifies it by first match: if
    the line contains [&&] it is split at the first occurrence and routed
    to the conditional executor; else if it contains [|] it is split at the
    first occurrence and routed to the pipe executor; else if it contains
    [&] the text before the first [&] is treated as a command with the
    background flag set; else the whole line is treated as a command with
    the flag clear.  Treating a text as a command means: it is tokenized;
    with no token nothing is done; when the first token is a built-in name
    the built-in runs, whatever the flag; otherwise the tokens are launched,
    in non-waiting mode when the flag is set and in waiting mode when it
    is clear. *)
Theorem dispatch_precedence (junk : argv) js st line :
  length junk = MAX_ARGS →
  char_at line 0 ≠ NL →
  let st' := add_to_history line st in
  let body := main_body junk js st line in
  (∀ l r, splits_at_first (cs "&&") line l r →
     body = (handle_and junk js l r ;; Ret (Continue, st'))) ∧
  (¬ occurs (cs "&&") line →
   ∀ l r, splits_at_first [BAR] line l r →
     body = (handle_pipe junk l r ;; Ret (Continue, st'))) ∧
  (¬ occurs (cs "&&") line → ¬ occurs [BAR] line →
   ∀ l r, splits_at_first [AMP] line l r →
     body = simple_command junk st' l true) ∧
  (¬ occurs (cs "&&") line → ¬ occurs [BAR] line → ¬ occurs [AMP] line →
     body = simple_command junk st' line false).
Proof.
  intros Hlen Hne. cbn zeta. split; [|split; [|split]].
  - intros l r Hs. by apply dispatch_and.
  - intros Hno l r Hs. by apply dispatch_pipe.
  - intros Hno1 Hno2 l r Hs. by apply (dispatch_background junk js Hlen st line Hne l r).
  - intros Hno1 Hno2 Hno3. by apply dispatch_plain.
Qed.

Lemma dispatch_precedence_witness :
  length blank_args = MAX_ARGS ∧
  main_body blank_args 0 initial_state (ln "gcc test.c && ./a.out") =
    (handle_and blank_args 0 (cs "gcc test.c ") (ln " ./a.out") ;;
     Ret (Continue,
          add_to_history (ln "gcc test.c && ./a.out") initial_state)) ∧
  main_body blank_args 0 initial_state (ln "echo hi | wc -w") =
    (handle_pipe blank_args (cs "echo hi ") (ln " wc -w") ;;
     Ret (Continue, add_to_history (ln "echo hi | wc -w") initial_state)) ∧
  main_body blank_args 0 initial_state (ln "sleep 5 &") =
    simple_command blank_args
      (add_to_history (ln "sleep 5 &") initial_state) (cs "sleep 5 ") true ∧
  main_body blank_args 0 initial_state (ln "echo hi") =
    simple_command blank_args
      (add_to_history (ln "echo hi") initial_state) (ln "echo hi") false.
Proof.
  split; [reflexivity|]. split; [|split; [|split]].
  - apply (proj1 (dispatch_precedence blank_args 0 initial_state
      (ln "gcc test.c && ./a.out") eq_refl ltac:(discriminate))).
    exact (splits_at_first_strstr (cs "&&")
             (ln "gcc test.c && ./a.out") 11 eq_refl).
  - apply (proj1 (proj2 (dispatch_precedence blank_args 0 initial_state
      (ln "echo hi | wc -w") eq_refl ltac:(discriminate)))).
    + by apply strstr_None.
    + exact (splits_at_first_strstr [BAR] (ln "echo hi | wc -w") 8 eq_refl).
  - apply (proj1 (proj2 (proj2 (dispatch_precedence blank_args 0
      initial_state (ln "sleep 5 &") eq_refl ltac:(discriminate)))))
      with (r := [NL]).
    + by apply strstr_None.
    + by apply strstr_None.
    + exact (splits_at_first_strstr [AMP] (ln "sleep 5 &") 8 eq_refl).
  - apply (proj2 (proj2 (proj2 (dispatch_precedence blank_args 0
      initial_state (ln "echo hi") eq_refl ltac:(discriminate))))).
    + by apply strstr_None.
    + by apply strstr_None.
    + by apply strstr_None.
Defined.

(** C3 as stated fails on [cd &]: the line contains [&] and neither [&&]
    nor [|], yet nothing is launched in non-waiting mode: the built-in
    [cd] runs in the shell itself and no process is created. *)
Lemma dispatch_background_builtin_counterexample :
  occurs [AMP] (ln "cd &") ∧
  ¬ occurs (cs "&&") (ln "cd &") ∧
  ¬ occurs [BAR] (ln "cd &") ∧
  run os_fine 0 (main_body blank_args 0 initial_state (ln "cd &")) =
    Execution
      (Process
         [EvGetenv "HOME" (Some (cs "/home/user"));
          EvChdir (Some (cs "/home/user")) 0;
          EvGetcwd (Some (cs "/home/user"));
          EvSetenv "PWD" (cs "/home/user")]
         (Returned (Continue, add_to_history (ln "cd &") initial_state)))
      [] ∧
  ¬ ∃ args,
      main_body blank_args 0 initial_state (ln "cd &") =
      (execute_command args true ;;
       Ret (Continue, add_to_history (ln "cd &") initial_state)).
Proof.
  split; [exact (occurs_strstr [AMP] (ln "cd &") 3 eq_refl)|].
  split; [by apply strstr_None|].
  split; [by apply strstr_None|].
  split; [vm_compute; reflexivity|].
  intros [args E].
  assert (main_body blank_args 0 initial_state (ln "cd &") =
          (run_builtin_cd (args_of [cs "cd"] blank_args) ;;
           Ret (Continue, add_to_history (ln "cd &") initial_state))) as Hm
    by reflexivity.
  rewrite Hm in E. discriminate E.
Qed.

Lemma simple_command_launch (junk : argv) st text background name rest :
  tokens text = name :: rest →
  name ∉ builtin_names →
  simple_command junk st text background =
  (execute_command (args_of (tokens text) junk) background ;;
   Ret (Continue, st)).
Proof.
  intros E Hn. unfold simple_command. rewrite E.
  unfold builtin_names in Hn. rewrite !not_elem_of_cons in Hn.
  destruct Hn as (H1 & H2 & H3 & H4 & _).
  by repeat case_decide.
Qed.

Lemma simple_command_builtin (junk : argv) st text background name rest :
  tokens text = name :: rest →
  name ∈ builtin_names →
  let args := args_of (tokens text) junk in
  simple_command junk st text background =
  if decide (name = cs "cd") then
    run_builtin_cd args ;; Ret (Continue, st)
  else if decide (name = cs "pwd") then
    run_builtin_pwd ;; Ret (Continue, st)
  else if decide (name = cs "exit") then Ret (Break, st)
  else show_history st ;; Ret (Continue, st).
Proof.
  intros E Hn. cbn zeta. unfold simple_command. rewrite E.
  unfold builtin_names in Hn. rewrite !elem_of_cons, elem_of_nil in Hn.
  repeat case_decide; try done.
  by destruct Hn as [?|[?|[?|[?|[]]]]].
Qed.

(** C9 (amended). For every input line (not beginning with a newline)
    that contains no [&&] and no [|] but at least one [&], wherever it
    stands, the dispatcher sets background mode and truncates the line at
    the first [&]: the text after it plays no part, and the text before it
    is treated as a command with the flag set.  When that text has tokens
    and the first is not a built-in name, the tokens are launched in the
    background: if [fork] succeeds the shell prints the process id, waits
    for nothing and goes back to the loop.  When that text has no token,
    nothing is done. *)
Theorem background_truncates_at_first_marker
    (junk : argv) js st line l r :
  length junk = MAX_ARGS →
  char_at line 0 ≠ NL →
  ¬ occurs (cs "&&") line → ¬ occurs [BAR] line →
  splits_at_first [AMP] line l r →
  let st' := add_to_history line st in
  let body := main_body junk js st line in
  let args := args_of (tokens l) junk in
  body = simple_command junk st' l true ∧
  argv_strings args = tokens l ∧
  (tokens l = [] → body = Ret (Continue, st')) ∧
  (∀ name rest, tokens l = name :: rest → name ∉ builtin_names →
     body = (execute_command args true ;; Ret (Continue, st')) ∧
     ∀ w n pid, os_fork w n = Some pid →
       run w n body =
       Execution
         (Process [EvFork (Zpos pid); EvPrintf BG_FORMAT [PInt (Zpos pid)]]
            (Returned (Continue, st')))
         [(Zpos pid, child_process w (S n) args "exec error" EXIT_FAILURE)]).
Proof.
  intros Hlen Hne Hno1 Hno2 Hs. cbn zeta.
  rewrite (dispatch_background junk js Hlen st line Hne l r Hno1 Hno2 Hs).
  split; [done|]. split; [apply argv_strings_args_of|]. split.
  - intros E. unfold simple_command. by rewrite E.
  - intros name rest E Hn.
    rewrite (simple_command_launch junk _ l true name rest E Hn).
    split; [done|]. intros w n pid Hfork.
    by rewrite run_execute_command, Hfork.
Qed.

Lemma background_truncates_at_first_marker_witness :
  length blank_args = MAX_ARGS ∧
  run os_fine 0 (main_body blank_args 0 initial_state (ln "sleep 5&x y")) =
  Execution
    (Process [EvFork 100; EvPrintf BG_FORMAT [PInt 100]]
       (Returned
          (Continue, add_to_history (ln "sleep 5&x y") initial_state)))
    [(100%Z,
      Process [EvExecvp (Some (cs "sleep")) [cs "sleep"; cs "5"]]
        (Replaced (cs "sleep") [cs "sleep"; cs "5"]))].
Proof.
  split; [reflexivity|].
  refine (proj2 (proj2 (proj2 (proj2
    (background_truncates_at_first_marker blank_args 0 initial_state
       (ln "sleep 5&x y") (cs "sleep 5") (ln "x y")
       eq_refl ltac:(discriminate) _ _ _))) (cs "sleep") [cs "5"] eq_refl _)
    os_fine 0 100%positive eq_refl).
  - by apply strstr_None.
  - by apply strstr_None.
  - exact (splits_at_first_strstr [AMP] (ln "sleep 5&x y") 7 eq_refl).
  - unfold builtin_names. rewrite !not_elem_of_cons.
    repeat split; try discriminate. apply not_elem_of_nil.
Defined.

(** C9 as stated fails on [ & ls]: the line contains [&] and neither [&&]
    nor [|], the text before the first [&] has no token, and nothing is
    launched: the shell makes no call at all and goes back to the loop. *)
Lemma background_without_command_counterexample :
  occurs [AMP] (ln " & ls") ∧
  ¬ occurs (cs "&&") (ln " & ls") ∧
  ¬ occurs [BAR] (ln " & ls") ∧
  run os_fine 0 (main_body blank_args 0 initial_state (ln " & ls")) =
    Execution
      (Process []
         (Returned (Continue, add_to_history (ln " & ls") initial_state)))
      [] ∧
  ¬ ∃ args,
      main_body blank_args 0 initial_state (ln " & ls") =
      (execute_command args true ;;
       Ret (Continue, add_to_history (ln " & ls") initial_state)).
Proof.
  split; [exact (occurs_strstr [AMP] (ln " & ls") 1 eq_refl)|].
  split; [by apply strstr_None|].
  split; [by apply strstr_None|].
  split; [vm_compute; reflexivity|].
  intros [args E].
  assert (main_body blank_args 0 initial_state (ln " & ls") =
          Ret (Continue, add_to_history (ln " & ls") initial_state)) as Hm
    by reflexivity.
  rewrite Hm in E. discriminate E.
Qed.

(** C10. For every line (not beginning with a newline, with no [&&] and no
    [|]) whose text before the first [&] has a built-in name as its first
    token, the dispatcher runs the built-in in the shell itself ([cd],
    [pwd], [history]) or leaves the loop ([exit]), exactly as it does with
    the background flag clear: whatever the operating system answers, no
    process is created, no [fork] is called and no [[BG]] line is
    printed. *)
Theorem builtin_ignores_background
    (junk : argv) js st line l r name rest :
  length junk = MAX_ARGS →
  char_at line 0 ≠ NL →
  ¬ occurs (cs "&&") line → ¬ occurs [BAR] line →
  splits_at_first [AMP] line l r →
  tokens l = name :: rest →
  name ∈ builtin_names →
  let st' := add_to_history line st in
  let body := main_body junk js st line in
  let args := args_of (tokens l) junk in
  body =
    (if decide (name = cs "cd") then
       run_builtin_cd args ;; Ret (Continue, st')
     else if decide (name = cs "pwd") then
       run_builtin_pwd ;; Ret (Continue, st')
     else if decide (name = cs "exit") then Ret (Break, st')
     else show_history st' ;; Ret (Continue, st')) ∧
  body = simple_command junk st' l false ∧
  no_launch body ∧
  ∀ w n,
    children (run w n body) = [] ∧
    existsb is_fork (trace (self (run w n body))) = false ∧
    existsb is_bg_line (trace (self (run w n body))) = false.
Proof.
  intros Hlen Hne Hno1 Hno2 Hs E Hn. cbn zeta.
  rewrite (dispatch_background junk js Hlen st line Hne l r Hno1 Hno2 Hs).
  pose proof (simple_command_builtin junk (add_to_history line st) l true
                name rest E Hn) as Ht.
  pose proof (simple_command_builtin junk (add_to_history line st) l false
                name rest E Hn) as Hf.
  cbn zeta in Ht, Hf.
  assert (no_launch (simple_command junk (add_to_history line st) l true))
    as Hquiet.
  { rewrite Ht. repeat case_decide.
    - apply no_launch_then; [apply no_launch_cd|constructor].
    - apply no_launch_then; [apply no_launch_pwd|constructor].
    - constructor.
    - apply no_launch_then; [apply no_launch_history|constructor]. }
  split; [done|]. split; [by rewrite Ht, Hf|]. split; [done|].
  by apply no_launch_run.
Qed.

Lemma builtin_ignores_background_witness :
  length blank_args = MAX_ARGS ∧
  cs "pwd" ∈ builtin_names ∧
  main_body blank_args 0 initial_state (ln "pwd &") =
    simple_command blank_args (add_to_history (ln "pwd &") initial_state)
      (cs "pwd ") false.
Proof.
  assert (cs "pwd" ∈ builtin_names) as Hin.
  { unfold builtin_names. apply list_elem_of_further, list_elem_of_here. }
  split; [reflexivity|]. split; [exact Hin|].
  refine (proj1 (proj2
    (builtin_ignores_background blank_args 0 initial_state
       (ln "pwd &") (cs "pwd ") [NL] (cs "pwd") []
       eq_refl ltac:(discriminate) _ _ _ eq_refl Hin))).
  - by apply strstr_None.
  - by apply strstr_None.
  - exact (splits_at_first_strstr [AMP] (ln "pwd &") 4 eq_refl).
Defined.


(** * Further properties *)

(** ** The tokenizer *)

Lemma Splits_are_words s ts : Splits s ts → Forall is_word ts.
Proof.
  induction 1 as [ds Hds|ds w Hds Hw|ds w d rest ts Hds Hw Hd _ IH].
  - constructor.
  - constructor; [done|constructor].
  - by constructor.
Qed.

(** X1. Whatever the line, every argument [parse_input] leaves in the
    array is non-empty and holds no space, tab or newline. *)
Theorem arguments_are_words (line : cstr) (args : argv) :
  length args = MAX_ARGS →
  Forall is_word (argv_strings (parse_input line args).2).
Proof.
  intros Hlen. rewrite parse_input_args by done.
  rewrite argv_strings_args_of. unfold tokens.
  apply Forall_take, (Splits_are_words line), words_Splits.
Qed.

Lemma arguments_are_words_witness :
  length blank_args = MAX_ARGS ∧
  Forall is_word
    (argv_strings (parse_input (ln "  ls   -l /tmp ") blank_args).2).
Proof.
  split; [reflexivity|]. exact (arguments_are_words _ blank_args eq_refl).
Defined.

Lemma Splits_join ts :
  Forall is_word ts → Splits (join_words ts ++ [NL]) ts.
Proof.
  assert (is_delim NL = true) as Hnl by done.
  assert (is_delim SPACE = true) as Hsp by done.
  induction 1 as [|t ts Ht Hts IH].
  - apply Splits_none. by repeat constructor.
  - destruct ts as [|t' ts].
    + apply (Splits_more [] t NL [] []); [constructor|done|done|].
      apply Splits_none. constructor.
    + change (join_words (t :: t' :: ts) ++ [NL])
        with ((t ++ SPACE :: join_words (t' :: ts)) ++ [NL]).
      rewrite <- app_assoc. cbn [app].
      apply (Splits_more [] t SPACE (join_words (t' :: ts) ++ [NL])
               (t' :: ts)); [constructor|done|done|exact IH].
Qed.

(** X2. Round trip: when words (non-empty, free of delimiters) are joined
    by single spaces and ended by a newline, the tokenizer gives back the
    first [MAX_ARGS - 1] of them, unchanged and in order. *)
Theorem tokenize_joined_words (ts : list cstr) (args : argv) :
  Forall is_word ts →
  length args = MAX_ARGS →
  words (join_words ts ++ [NL]) = ts ∧
  argv_strings (parse_input (join_words ts ++ [NL]) args).2 =
    take (MAX_ARGS - 1) ts ∧
  (parse_input (join_words ts ++ [NL]) args).1 =
    length ts `min` (MAX_ARGS - 1).
Proof.
  intros Hts Hlen.
  assert (words (join_words ts ++ [NL]) = ts) as Hw.
  { symmetry. by apply Splits_words, Splits_join. }
  split; [done|].
  pose proof (parse_input_splits _ _ args
                (words_Splits (join_words ts ++ [NL])) Hlen) as E.
  cbn zeta in E. rewrite E, Hw. cbn [fst snd].
  split; [apply argv_strings_sentinel|].
  rewrite length_take. lia.
Qed.

Lemma tokenize_joined_words_witness :
  Forall is_word [cs "gcc"; cs "-o"; cs "prog"; cs "main.c"] ∧
  length blank_args = MAX_ARGS ∧
  words (join_words [cs "gcc"; cs "-o"; cs "prog"; cs "main.c"] ++ [NL]) =
    [cs "gcc"; cs "-o"; cs "prog"; cs "main.c"].
Proof.
  assert (Forall is_word [cs "gcc"; cs "-o"; cs "prog"; cs "main.c"]) as H.
  { repeat (constructor; [split; [discriminate|by repeat constructor]|]).
    constructor. }
  split; [exact H|]. split; [reflexivity|].
  exact (proj1 (tokenize_joined_words _ blank_args H eq_refl)).
Defined.

Lemma Splits_trailing s ts ds :
  Splits s ts → all_delims ds → Splits (s ++ ds) ts.
Proof.
  intros Hs Hds.
  induction Hs as [ds0 H0|ds0 w H0 Hw|ds0 w d rest ts H0 Hw Hd _ IH].
  - apply Splits_none. by apply Forall_app.
  - destruct ds as [|d ds'].
    + rewrite app_nil_r. by apply Splits_last.
    + rewrite <- app_assoc. inversion Hds; subst.
      apply Splits_more; [done..|]. by apply Splits_none.
  - rewrite <- !app_assoc. cbn [app]. by apply Splits_more.
Qed.

(** X3. Blanks around a command do not count: with delimiters added
    before and after a text, [parse_input] returns the same count and
    leaves the same arguments. *)
Theorem tokens_ignore_surrounding_blanks (ds1 s ds2 : cstr) (args : argv) :
  all_delims ds1 → all_delims ds2 →
  length args = MAX_ARGS →
  parse_input (ds1 ++ s ++ ds2) args = parse_input s args ∧
  tokens (ds1 ++ s ++ ds2) = tokens s.
Proof.
  intros H1 H2 Hlen.
  assert (words (ds1 ++ s ++ ds2) = words s) as Hw.
  { rewrite words_skip_delims by done.
    symmetry. apply Splits_words, Splits_trailing; [apply words_Splits|done]. }
  split; [|unfold tokens; by rewrite Hw].
  rewrite (parse_input_splits _ _ args (words_Splits (ds1 ++ s ++ ds2)) Hlen).
  rewrite (parse_input_splits _ _ args (words_Splits s) Hlen).
  by rewrite Hw.
Qed.

Lemma tokens_ignore_surrounding_blanks_witness :
  all_delims [SPACE; TAB] ∧ all_delims [SPACE; NL] ∧
  length blank_args = MAX_ARGS ∧
  parse_input ([SPACE; TAB] ++ cs "echo hi" ++ [SPACE; NL]) blank_args =
  parse_input (cs "echo hi") blank_args.
Proof.
  assert (all_delims [SPACE; TAB]) as H1 by (repeat constructor).
  assert (all_delims [SPACE; NL]) as H2 by (repeat constructor).
  split; [exact H1|]. split; [exact H2|]. split; [reflexivity|].
  exact (proj1 (tokens_ignore_surrounding_blanks _ (cs "echo hi") _
                  blank_args H1 H2 eq_refl)).
Defined.

(** ** Sequencing and the interpreter *)

(** One event, then the induction hypothesis, whatever the ending. *)
Ltac run_after IH :=
  unfold after; cbn [self trace ending]; rewrite IH; cbn zeta;
  match goal with
  | |- context [ending ?e] =>
      destruct (ending e);
      cbn [trace ending app length]; rewrite ?Nat.add_succ_r; done
  end.

(** The process that runs [then_ p k] does what [p] does and, when [p]
    returns, goes on with [k] at the clock [p] reached. *)
Lemma self_run_then {A B} (p : sys A) (k : A → sys B) w : ∀ n,
  self (run w n (then_ p k)) =
  let done := self (run w n p) in
  match ending done with
  | Returned a =>
      let rest := self (run w (n + length (trace done)) (k a)) in
      Process (trace done ++ trace rest) (ending rest)
  | Exited code => Process (trace done) (Exited code)
  | Replaced f args => Process (trace done) (Replaced f args)
  | Undefined => Process (trace done) Undefined
  | Diverged => Process (trace done) Diverged
  end.
Proof.
  induction p as [r|f IH|file args p IH|code|pid want f IH|f IH|a b p IH
                  |fd p IH|fmt args p IH|msg p IH|name f IH|path f IH|f IH
                  |name value p IH|]; intros n; cbn [then_ run];
    try done.
  - cbn. rewrite Nat.add_0_r. by destruct (run w n (k r)) as [[] ?].
  - destruct (os_fork w n) as [pid|]; run_after IH.
  - destruct file as [f|]; [|done].
    destruct (os_exec w n f (argv_strings args)); [done|]. run_after IH.
  - run_after IH.
  - run_after IH.
  - run_after IH.
  - run_after IH.
  - run_after IH.
  - run_after IH.
  - run_after IH.
  - run_after IH.
  - run_after IH.
  - run_after IH.
Qed.

(** Two continuations that run alike give runs that are alike. *)
Lemma run_then_ext {A B} (p : sys A) (k1 k2 : A → sys B) w :
  (∀ a m, run w m (k1 a) = run w m (k2 a)) →
  ∀ n, run w n (then_ p k1) = run w n (then_ p k2).
Proof.
  intros Hk.
  induction p as [r|f IH|file args p IH|code|pid want f IH|f IH|a b p IH
                  |fd p IH|fmt args p IH|msg p IH|name f IH|path f IH|f IH
                  |name value p IH|]; intros n; cbn [then_ run];
    rewrite ?IH; try done; try apply Hk.
  destruct (os_fork w n); by rewrite ?IH.
Qed.

(** ** The history buffer in any valid state *)

Lemma run_print_slots w slots : ∀ k n,
  run w n (print_slots k slots) =
  Execution (Process (listing k slots) (Returned tt)) [].
Proof.
  induction slots as [|[cmd|] slots IH]; intros k n;
    cbn [print_slots listing run]; [done| |apply IH].
  by rewrite IH.
Qed.

Lemma listing_app slots1 slots2 : ∀ k,
  listing k (slots1 ++ slots2) =
  listing k slots1 ++ listing (k + in_use slots1) slots2.
Proof.
  unfold in_use.
  induction slots1 as [|[cmd|] slots1 IH]; intros k; cbn [app listing].
  - by rewrite Nat.add_0_r.
  - rewrite IH. cbn. do 3 f_equal. lia.
  - by rewrite IH.
Qed.

Lemma listing_length slots k : length (listing k slots) = in_use slots.
Proof.
  unfold in_use. revert k.
  induction slots as [|[cmd|] slots IH]; intros k; cbn; [done| |apply IH].
  by rewrite IH.
Qed.

Lemma in_use_le slots : in_use slots ≤ length slots.
Proof.
  unfold in_use. induction slots as [|[cmd|] slots IH]; cbn; lia.
Qed.

Lemma show_history_valid st fuel :
  valid_state st → HISTORY_COUNT ≤ fuel →
  show_history_fuel fuel st =
  print_slots 1 (from_slot (history_index st) (history st)).
Proof.
  intros [Hlen Hidx] Hfuel. unfold show_history_fuel.
  pose proof (show_loop_from fuel 0 (history st) (history_index st) 0) as E.
  rewrite Nat.add_0_r, Nat.mod_small, drop_0 in E by done.
  apply E; (done || unfold HISTORY_COUNT in *; lia).
Qed.

Lemma run_show_history st fuel w n :
  valid_state st → HISTORY_COUNT ≤ fuel →
  run w n (show_history_fuel fuel st) =
  Execution
    (Process (listing 1 (from_slot (history_index st) (history st)))
       (Returned tt)) [].
Proof.
  intros Hv Hfuel. rewrite show_history_valid by done.
  apply run_print_slots.
Qed.

(** X4. In any state where the buffer has its [HISTORY_COUNT] slots and the
    index is one of them, [show_history] comes to an end (with any budget
    of at least [HISTORY_COUNT] iterations) and returns after printing the
    slots in use, in circular order from the slot at [history_index],
    numbered 1, 2, ... without gaps: at most [HISTORY_COUNT] lines, and
    nothing else. *)
Theorem show_history_lists_slots_in_use st w n :
  valid_state st →
  let slots := from_slot (history_index st) (history st) in
  (∀ fuel, HISTORY_COUNT ≤ fuel →
     run w n (show_history_fuel fuel st) =
     Execution (Process (listing 1 slots) (Returned tt)) []) ∧
  run w n (show_history st) =
    Execution (Process (listing 1 slots) (Returned tt)) [] ∧
  length (listing 1 slots) = in_use (history st) ∧
  in_use (history st) ≤ HISTORY_COUNT.
Proof.
  intros Hv. cbn zeta.
  split; [intros fuel Hfuel; by apply run_show_history|].
  split; [by apply run_show_history|].
  destruct Hv as [Hlen Hidx]. rewrite listing_length.
  assert (in_use (from_slot (history_index st) (history st)) =
          in_use (history st)) as ->.
  { unfold in_use, from_slot. rewrite omap_app, length_app.
    rewrite <- (take_drop (history_index st) (history st)) at 3.
    rewrite omap_app, length_app. lia. }
  split; [done|]. rewrite <- Hlen. apply in_use_le.
Qed.

Lemma show_history_lists_slots_in_use_witness :
  valid_state (ShellState
    [Some (cs "c"); None; None; None; None; None; None; None;
     Some (cs "a"); Some (cs "b")] 1) ∧
  run os_fine 0 (show_history (ShellState
    [Some (cs "c"); None; None; None; None; None; None; None;
     Some (cs "a"); Some (cs "b")] 1)) =
  Execution
    (Process
       [EvPrintf HISTORY_FORMAT [PInt 1; PStr (cs "a")];
        EvPrintf HISTORY_FORMAT [PInt 2; PStr (cs "b")];
        EvPrintf HISTORY_FORMAT [PInt 3; PStr (cs "c")]]
       (Returned tt)) [].
Proof.
  assert (valid_state (ShellState
    [Some (cs "c"); None; None; None; None; None; None; None;
     Some (cs "a"); Some (cs "b")] 1)) as Hv.
  { split; [reflexivity|]. unfold HISTORY_COUNT. cbn. lia. }
  split; [exact Hv|].
  exact (proj1 (proj2
    (show_history_lists_slots_in_use _ os_fine 0 Hv))).
Defined.

Lemma add_to_history_valid cmd st :
  length (history st) = HISTORY_COUNT → valid_state (add_to_history cmd st).
Proof.
  intros Hlen. split; cbn [add_to_history history history_index].
  - by rewrite length_insert.
  - by apply Nat.mod_upper_bound.
Qed.

(** X5. Recording a command in a valid state gives a valid state whose
    listing is the former listing without the slot that was at
    [history_index] (the one overwritten), followed by the new command as
    the last line. *)
Theorem add_to_history_then_show cmd st w n :
  valid_state st →
  let slots := from_slot (history_index st) (history st) in
  valid_state (add_to_history cmd st) ∧
  trace (self (run w n (show_history (add_to_history cmd st)))) =
    listing 1 (drop 1 slots) ++
    [EvPrintf HISTORY_FORMAT
       [PInt (Z.of_nat (1 + in_use (drop 1 slots))); PStr cmd]] ∧
  ending (self (run w n (show_history (add_to_history cmd st)))) =
    Returned tt.
Proof.
  intros Hv. cbn zeta. destruct Hv as [Hlen Hidx].
  pose proof (add_to_history_valid cmd st Hlen) as Hv'.
  split; [done|].
  unfold show_history. rewrite run_show_history by done.
  cbn [self trace ending add_to_history history history_index].
  rewrite from_slot_store by done.
  by rewrite listing_app.
Qed.

Lemma add_to_history_then_show_witness :
  valid_state initial_state ∧
  trace (self (run os_fine 0
    (show_history (add_to_history (ln "ls") initial_state)))) =
  [EvPrintf HISTORY_FORMAT [PInt 1; PStr (ln "ls")]].
Proof.
  assert (valid_state initial_state) as Hv.
  { split; [reflexivity|]. unfold HISTORY_COUNT. cbn. lia. }
  split; [exact Hv|].
  exact (proj1 (proj2
    (add_to_history_then_show (ln "ls") initial_state os_fine 0 Hv))).
Defined.

(** ** The executors against any operating system *)

Lemma run_handle_pipe_then {R} w n (junk : argv) l r (x : R) :
  length junk = MAX_ARGS →
  run w n (handle_pipe junk l r ;; Ret x) =
  Execution (Process (pipe_parent_trace w n) (Returned x))
    (pipe_children w n junk l r).
Proof.
  intros Hlen. unfold pipe_parent_trace, pipe_children.
  run_pipe w n l r junk.
Qed.

(** The conditional executor, whatever [fork] and [waitpid] answer. *)
Lemma run_handle_and_then {R} w n (junk : argv) js l r (x : R) :
  length junk = MAX_ARGS →
  let a := os_fork w n in
  let pid := fork_ret a in
  let wa := os_wait w (S n) pid in
  let status := default js (snd <$> wa) in
  let left_args := args_of (tokens l) junk in
  let left_child := child_process w (S n) left_args "exec" 1%Z in
  let right_run :=
    run w (S (S n))
      (execute_command (args_of (tokens r) left_args) false ;; Ret x) in
  run w n (handle_and junk js l r ;; Ret x) =
  if WIFEXITED status && (WEXITSTATUS status =? 0)%Z then
    Execution
      (Process (EvFork pid :: EvWaitpid pid true wa :: trace (self right_run))
         (ending (self right_run)))
      (spawned a left_child ++ children right_run)
  else
    Execution (Process [EvFork pid; EvWaitpid pid true wa] (Returned x))
      (spawned a left_child).
Proof.
  intros Hlen. cbn zeta. unfold handle_and. cbn [then_ run].
  destruct (os_fork w n) as [p|]; cbn [fork_ret Z.eqb spawned];
    run_children; cbn [then_ run after];
    rewrite right_args, ?parse_input_args by done;
    unfold after; cbn [self children trace ending app];
    destruct (os_wait w (S n) _) as [[q status]|];
    cbn [fmap option_fmap option_map snd default from_option id];
    by destruct (WIFEXITED _ && _).
Qed.

(** ** The dispatcher against any operating system *)

Lemma strcspn_no_strchr s c : strchr s c = None → strcspn s [c] = length s.
Proof.
  induction s as [|x s IH]; [done|].
  cbn [strchr strcspn in_set existsb length]. rewrite orb_false_r.
  destruct (Ascii.eqb x c); [done|].
  destruct (strchr s c); [done|]. intros _. by rewrite IH.
Qed.

(** [main_body] in terms of the searches it makes. *)
Lemma main_body_cases (junk : argv) js st line :
  length junk = MAX_ARGS →
  main_body junk js st line =
  if Ascii.eqb (char_at line 0) NL then Ret (Continue, st)
  else
    let st' := add_to_history line st in
    match strstr line (cs "&&") with
    | Some i =>
        handle_and junk js (take i line) (drop (i + 2) line) ;;
        Ret (Continue, st')
    | None =>
        match strchr line BAR with
        | Some i =>
            handle_pipe junk (take i line) (drop (i + 1) line) ;;
            Ret (Continue, st')
        | None =>
            simple_command junk st' (take (strcspn line [AMP]) line)
              (match strchr line AMP with Some _ => true | None => false end)
        end
    end.
Proof.
  intros Hlen. unfold main_body.
  destruct (Ascii.eqb (char_at line 0) NL); [done|].
  destruct (strstr line (cs "&&")); [done|].
  destruct (strchr line BAR); [done|].
  destruct (strchr line AMP) as [i|] eqn:E.
  - by apply command_tail.
  - rewrite (strcspn_no_strchr _ _ E), firstn_all. by apply command_tail.
Qed.

Lemma run_cd_returns w n args :
  ending (self (run w n (run_builtin_cd args))) = Returned tt.
Proof.
  unfold run_builtin_cd.
  destruct (arg_at args 1); cbn [run]; unfold after; cbn [self ending].
  - destruct (os_chdir w n _); cbn [Z.eqb run]; [|done].
    unfold after. cbn [self ending]. by destruct (os_getcwd w (S n)).
  - destruct (os_chdir w (S n) _); cbn [Z.eqb run]; [|done].
    unfold after. cbn [self ending]. by destruct (os_getcwd w (S (S n))).
Qed.

Lemma run_pwd_returns w n :
  ending (self (run w n run_builtin_pwd)) = Returned tt.
Proof.
  unfold run_builtin_pwd. cbn [run]. by destruct (os_getcwd w n).
Qed.

Lemma ending_then_returned {A B} (p : sys A) (x : B) w n a :
  ending (self (run w n p)) = Returned a →
  ending (self (run w n (p ;; Ret x))) = Returned x.
Proof. intros E. rewrite self_run_then. cbn zeta. by rewrite E. Qed.

Lemma simple_command_returns (junk : argv) st text background w n :
  valid_state st →
  ending (self (run w n (simple_command junk st text background))) =
  Returned
    (if bool_decide (head (tokens text) = Some (cs "exit"))
     then Break else Continue, st).
Proof.
  intros Hv. unfold simple_command.
  destruct (tokens text) as [|name rest]; cbn [head].
  { by rewrite bool_decide_eq_false_2. }
  destruct (decide (name = cs "cd")) as [->|Hcd].
  { rewrite bool_decide_eq_false_2 by discriminate.
    apply (ending_then_returned _ _ _ _ tt), run_cd_returns. }
  destruct (decide (name = cs "pwd")) as [->|Hpwd].
  { rewrite bool_decide_eq_false_2 by discriminate.
    apply (ending_then_returned _ _ _ _ tt), run_pwd_returns. }
  destruct (decide (name = cs "exit")) as [->|Hexit].
  { by rewrite bool_decide_eq_true_2. }
  rewrite bool_decide_eq_false_2 by congruence.
  destruct (decide (name = cs "history")) as [->|Hhist].
  { apply (ending_then_returned _ _ _ _ tt).
    unfold show_history. by rewrite run_show_history. }
  rewrite run_execute_command. by destruct (os_fork w n).
Qed.

(** Where the shell's own process stands after the dispatcher. *)
Lemma main_body_ending (junk : argv) js st line w n :
  length junk = MAX_ARGS →
  length (history st) = HISTORY_COUNT →
  ending (self (run w n (main_body junk js st line))) =
  Returned
    (if exit_line line then Break else Continue,
     if Ascii.eqb (char_at line 0) NL then st else add_to_history line st).
Proof.
  intros Hlen Hh. rewrite main_body_cases by done. unfold exit_line.
  destruct (Ascii.eqb (char_at line 0) NL); [done|]. cbn zeta.
  cbn [negb andb].
  destruct (strstr line (cs "&&")) as [i|].
  { rewrite bool_decide_eq_false_2 by done. cbn [andb].
    rewrite run_handle_and_then by done. cbn zeta.
    destruct (WIFEXITED _ && _); [|done].
    rewrite run_execute_command. by destruct (os_fork w (S (S n))). }
  rewrite bool_decide_eq_true_2 by done. cbn [andb].
  destruct (strchr line BAR) as [i|].
  { rewrite bool_decide_eq_false_2 by done.
    by rewrite run_handle_pipe_then. }
  rewrite bool_decide_eq_true_2 by done. cbn [andb].
  apply simple_command_returns. by apply add_to_history_valid.
Qed.

(** ** The processes the dispatcher creates *)

Lemma child_process_end_ok {R} w n args msg :
  child_end_ok (@child_process R w n args msg 1%Z).
Proof.
  unfold child_end_ok, child_process.
  destruct (arg_at args 0) as [f|]; [|done].
  by destruct (os_exec w n f (argv_strings args)).
Qed.

Lemma piped_child_end_ok {R} w n setup args msg :
  Forall (λ ev, is_perror ev = false) setup →
  child_end_ok (@piped_child R w n setup args msg).
Proof.
  intros Hsetup. unfold child_end_ok, piped_child, child_process.
  destruct (arg_at args 0) as [f|]; [|done].
  destruct (os_exec w n f (argv_strings args)); [done|].
  cbn [ending trace]. split; [done|].
  rewrite existsb_app. apply orb_true_iff. by right.
Qed.

Lemma spawned_end_ok {R} a (p : process R) :
  child_end_ok p → Forall (λ c, child_end_ok c.2) (spawned a p).
Proof. intros Hp. destruct a; by repeat constructor. Qed.

Lemma no_launch_simple_builtin (junk : argv) st text background name rest :
  tokens text = name :: rest → name ∈ builtin_names →
  no_launch (simple_command junk st text background).
Proof.
  intros E Hn.
  rewrite (simple_command_builtin junk st text background name rest E Hn).
  cbn zeta. repeat case_decide.
  - apply no_launch_then; [apply no_launch_cd|constructor].
  - apply no_launch_then; [apply no_launch_pwd|constructor].
  - constructor.
  - apply no_launch_then; [apply no_launch_history|constructor].
Qed.

Lemma simple_command_children (junk : argv) st text background w n :
  Forall (λ c, child_end_ok c.2)
    (children (run w n (simple_command junk st text background))) ∧
  length (children (run w n (simple_command junk st text background))) ≤ 1.
Proof.
  destruct (tokens text) as [|name rest] eqn:E.
  { unfold simple_command. rewrite E. cbn. split; [constructor|lia]. }
  destruct (decide (name ∈ builtin_names)) as [Hb|Hb].
  - pose proof (no_launch_simple_builtin junk st text background
                  name rest E Hb) as Hq.
    destruct (no_launch_run _ Hq w n) as (-> & _). cbn.
    split; [constructor|lia].
  - rewrite (simple_command_launch junk st text background name rest E Hb).
    rewrite run_execute_command.
    destruct (os_fork w n); cbn [children length]; split;
      try lia; repeat constructor.
    apply child_process_end_ok.
Qed.

(** X9. No process the dispatcher creates ever comes back into the code
    of the shell: for every line and whatever the operating system
    answers, each child either is replaced by the program it was to run,
    or steps outside the contract of [execvp] (a NULL program name), or
    reports the failure with [perror] and exits with status 1.  At most
    two children are created for a line. *)
Theorem children_never_return_to_loop (junk : argv) js st line w n :
  length junk = MAX_ARGS →
  let e := run w n (main_body junk js st line) in
  Forall (λ c, child_end_ok c.2) (children e) ∧
  length (children e) ≤ 2.
Proof.
  intros Hlen. cbn zeta. rewrite main_body_cases by done.
  destruct (Ascii.eqb (char_at line 0) NL).
  { cbn. split; [constructor|lia]. }
  cbn zeta. destruct (strstr line (cs "&&")) as [i|].
  { rewrite run_handle_and_then by done. cbn zeta.
    destruct (WIFEXITED _ && _); cbn [children].
    - rewrite run_execute_command. split.
      + apply Forall_app. split.
        * apply spawned_end_ok, child_process_end_ok.
        * destruct (os_fork w (S (S n))); cbn [children];
            repeat constructor. apply child_process_end_ok.
      + rewrite length_app.
        destruct (os_fork w n), (os_fork w (S (S n))); cbn; lia.
    - split; [apply spawned_end_ok, child_process_end_ok|].
      destruct (os_fork w n); cbn; lia. }
  destruct (strchr line BAR) as [i|].
  { rewrite run_handle_pipe_then by done. cbn [children].
    unfold pipe_children. split.
    - apply Forall_app.
      split; apply spawned_end_ok, piped_child_end_ok;
        by repeat constructor.
    - rewrite length_app.
      destruct (os_fork w (1 + n)), (os_fork w (2 + n)); cbn; lia. }
  destruct (simple_command_children junk (add_to_history line st)
              (take (strcspn line [AMP]) line)
              (match strchr line AMP with Some _ => true | None => false end)
              w n) as [H1 H2].
  split; [done|lia].
Qed.

Lemma children_never_return_to_loop_witness :
  length blank_args = MAX_ARGS ∧
  Forall (λ c, child_end_ok c.2)
    (children (run os_fine 0
       (main_body blank_args 0 initial_state (ln "ls | wc")))).
Proof.
  split; [reflexivity|].
  exact (proj1 (children_never_return_to_loop blank_args 0 initial_state
                  (ln "ls | wc") os_fine 0 eq_refl)).
Defined.

(** ** Plain commands *)

(** X10. A line without operator whose first token is not a built-in name
    is launched once, in waiting mode: the shell calls [fork] once and, if
    a child was created, waits for that very child and goes back to the
    loop; if [fork] failed it reports [fork failed], creates nothing and
    goes back to the loop.  The child calls [execvp] with the first token
    as program and all the tokens as arguments; if the program cannot be
    started the child reports [exec error] and exits with status 1. *)
Theorem plain_command_launches_once
    (junk : argv) js st line name rest w n :
  length junk = MAX_ARGS →
  char_at line 0 ≠ NL →
  ¬ occurs (cs "&&") line → ¬ occurs [BAR] line → ¬ occurs [AMP] line →
  tokens line = name :: rest →
  name ∉ builtin_names →
  let st' := add_to_history line st in
  let args := args_of (tokens line) junk in
  run w n (main_body junk js st line) =
    match os_fork w n with
    | Some pid =>
        Execution
          (Process
             [EvFork (Zpos pid);
              EvWaitpid (Zpos pid) false (os_wait w (S n) (Zpos pid))]
             (Returned (Continue, st')))
          [(Zpos pid, child_process w (S n) args "exec error" EXIT_FAILURE)]
    | None =>
        Execution
          (Process [EvFork (-1); EvPerror "fork failed"]
             (Returned (Continue, st'))) []
    end ∧
  @child_process (ctl * shell_state) w (S n) args "exec error" EXIT_FAILURE =
    (if os_exec w (S n) name (name :: rest)
     then Process [EvExecvp (Some name) (name :: rest)]
            (Replaced name (name :: rest))
     else Process
            [EvExecvp (Some name) (name :: rest);
             EvPerror "exec error"; EvExit 1]
            (Exited 1)).
Proof.
  intros Hlen Hne Hno1 Hno2 Hno3 E Hn. cbn zeta.
  rewrite (dispatch_plain junk js Hlen st line Hne Hno1 Hno2 Hno3).
  rewrite (simple_command_launch junk _ line false name rest E Hn).
  rewrite run_execute_command. split; [done|].
  unfold child_process. rewrite arg_at_0, argv_strings_args_of, E.
  cbn [head]. by destruct (os_exec w (S n) name (name :: rest)).
Qed.

Lemma plain_command_launches_once_witness :
  length blank_args = MAX_ARGS ∧
  run os_fine 0 (main_body blank_args 0 initial_state (ln "echo hi")) =
  Execution
    (Process [EvFork 100; EvWaitpid 100 false (Some (100%positive, 0%Z))]
       (Returned (Continue, add_to_history (ln "echo hi") initial_state)))
    [(100%Z,
      Process [EvExecvp (Some (cs "echo")) [cs "echo"; cs "hi"]]
        (Replaced (cs "echo") [cs "echo"; cs "hi"]))].
Proof.
  split; [reflexivity|].
  refine (proj1 (plain_command_launches_once blank_args 0 initial_state
    (ln "echo hi") (cs "echo") [cs "hi"] os_fine 0
    eq_refl ltac:(discriminate) _ _ _ eq_refl _)).
  - by apply strstr_None.
  - by apply strstr_None.
  - by apply strstr_None.
  - unfold builtin_names. rewrite !not_elem_of_cons.
    repeat split; try discriminate. apply not_elem_of_nil.
Defined.

(** ** Built-in names beside an operator *)

(** X13. On a line that contains [&&] or [|] no built-in runs, whatever
    the commands are named: the shell only creates processes, waits,
    handles the channel and reports a failed [fork]; it changes no
    directory, reads and sets no environment variable, prints no history,
    and goes on with the loop, even when a command is [exit]. *)
Theorem operators_bypass_builtins (junk : argv) js st line w n :
  length junk = MAX_ARGS →
  char_at line 0 ≠ NL →
  occurs (cs "&&") line ∨ occurs [BAR] line →
  let e := run w n (main_body junk js st line) in
  ending (self e) = Returned (Continue, add_to_history line st) ∧
  forallb is_process_call (trace (self e)) = true.
Proof.
  intros Hlen Hne Hop. cbn zeta. rewrite main_body_cases by done.
  apply Ascii.eqb_neq in Hne. rewrite Hne. cbn zeta.
  destruct (strstr line (cs "&&")) as [i|] eqn:Eand.
  { rewrite run_handle_and_then by done. cbn zeta.
    destruct (WIFEXITED _ && _); [|done].
    rewrite run_execute_command. by destruct (os_fork w (S (S n))). }
  destruct (strchr line BAR) as [i|] eqn:Ebar.
  { by rewrite run_handle_pipe_then. }
  exfalso. destruct Hop as [H|H].
  - by apply (strstr_None _ _ Eand).
  - rewrite strchr_strstr in Ebar. by apply (strstr_None _ _ Ebar).
Qed.

Lemma operators_bypass_builtins_witness :
  length blank_args = MAX_ARGS ∧
  ending (self (run os_fine 0
    (main_body blank_args 0 initial_state (ln "exit && cd /tmp")))) =
  Returned (Continue, add_to_history (ln "exit && cd /tmp") initial_state).
Proof.
  split; [reflexivity|].
  refine (proj1 (operators_bypass_builtins blank_args 0 initial_state
    (ln "exit && cd /tmp") os_fine 0 eq_refl ltac:(discriminate) _)).
  left. exact (occurs_strstr (cs "&&") (ln "exit && cd /tmp") 5 eq_refl).
Defined.

(** ** Commands without tokens beside [&&] *)



(** ** Lines without a command *)

Lemma strstr_all_delims s c needle :
  all_delims s → is_delim c = false → strstr s (c :: needle) = None.
Proof.
  intros Hs Hc. induction Hs as [|d s Hd _ IH]; [done|].
  rewrite strstr_unfold. cbn [starts_with].
  destruct (Ascii.eqb_spec c d) as [->|_]; [congruence|].
  cbn [andb]. by rewrite IH.
Qed.

(** X7. A line made of blanks only makes the shell do nothing at all, with
    one difference: the empty line (a newline alone) is not recorded in
    the history, while a line that begins with a space or a tab is
    recorded, like any command. *)
Theorem blank_line_does_nothing (junk : argv) js st line :
  length junk = MAX_ARGS →
  all_delims line →
  main_body junk js st line =
  Ret (Continue,
       if Ascii.eqb (char_at line 0) NL then st
       else add_to_history line st).
Proof.
  intros Hlen Hd. rewrite main_body_cases by done.
  destruct (Ascii.eqb (char_at line 0) NL); [done|]. cbn zeta.
  assert (strstr line (cs "&&") = None) as ->
    by exact (strstr_all_delims line "&"%char (cs "&") Hd eq_refl).
  rewrite strchr_strstr, (strstr_all_delims line BAR []) by done.
  unfold simple_command, tokens.
  rewrite words_all_delims; [done|]. by apply Forall_take.
Qed.

Lemma blank_line_does_nothing_witness :
  length blank_args = MAX_ARGS ∧
  all_delims (ln "   ") ∧
  main_body blank_args 0 initial_state (ln "   ") =
  Ret (Continue, add_to_history (ln "   ") initial_state).
Proof.
  assert (all_delims (ln "   ")) as Hd by (repeat constructor).
  split; [reflexivity|]. split; [exact Hd|].
  exact (blank_line_does_nothing blank_args 0 initial_state (ln "   ")
           eq_refl Hd).
Defined.

(** ** The built-ins on a plain line *)

Lemma plain_builtin (junk : argv) js st line name rest :
  length junk = MAX_ARGS →
  char_at line 0 ≠ NL →
  ¬ occurs (cs "&&") line → ¬ occurs [BAR] line → ¬ occurs [AMP] line →
  tokens line = name :: rest →
  main_body junk js st line =
  simple_command junk (add_to_history line st) line false ∧
  args_of (tokens line) junk = args_of (name :: rest) junk.
Proof.
  intros Hlen Hne H1 H2 H3 E. split; [by apply dispatch_plain|by rewrite E].
Qed.

(** X11. [cd] on a plain line.  With a directory argument the shell calls
    [chdir] on that argument, does not consult [HOME], and ignores any
    further argument; without one it calls [chdir] on whatever
    [getenv("HOME")] gave, NULL included.  When [chdir] fails it reports
    [cd error] and leaves [PWD] alone; when it succeeds it sets [PWD] to
    the directory [getcwd] reports, or leaves it alone when [getcwd]
    fails.  No process is created and the loop goes on. *)
Theorem cd_changes_directory (junk : argv) js st line rest w n :
  length junk = MAX_ARGS →
  char_at line 0 ≠ NL →
  ¬ occurs (cs "&&") line → ¬ occurs [BAR] line → ¬ occurs [AMP] line →
  tokens line = cs "cd" :: rest →
  let home := os_getenv w n "HOME" in
  let target := match rest with d :: _ => Some d | [] => home end in
  let m := match rest with _ :: _ => n | [] => S n end in
  let ok := os_chdir w m target in
  let cwd := os_getcwd w (S m) in
  run w n (main_body junk js st line) =
  Execution
    (Process
       (match rest with
        | _ :: _ => []
        | [] => [EvGetenv "HOME" home]
        end ++
        EvChdir target (if ok then 0 else -1) ::
        (if ok then
           EvGetcwd cwd ::
           match cwd with
           | Some d => [EvSetenv "PWD" d]
           | None => []
           end
         else [EvPerror "cd error"]))
       (Returned (Continue, add_to_history line st)))
    [].
Proof.
  intros Hlen Hne H1 H2 H3 E. cbn zeta.
  destruct (plain_builtin junk js st line _ _ Hlen Hne H1 H2 H3 E)
    as [-> Hargs].
  unfold simple_command. rewrite E. rewrite decide_True by done.
  unfold run_builtin_cd.
  destruct rest as [|d rest]; cbn [args_of arg_at fmap list_fmap app
    lookup list_lookup default from_option id then_ run].
  - unfold after. cbn [self trace ending children].
    destruct (os_chdir w (S n) _); cbn [Z.eqb then_ run];
      unfold after; cbn [self trace ending children]; [|done].
    by destruct (os_getcwd w (S (S n))).
  - unfold after. cbn [self trace ending children].
    destruct (os_chdir w n _); cbn [Z.eqb then_ run];
      unfold after; cbn [self trace ending children]; [|done].
    by destruct (os_getcwd w (S n)).
Qed.

Lemma cd_changes_directory_witness :
  length blank_args = MAX_ARGS ∧
  run os_fine 0 (main_body blank_args 0 initial_state (ln "cd /tmp x")) =
  Execution
    (Process
       [EvChdir (Some (cs "/tmp")) 0; EvGetcwd (Some (cs "/home/user"));
        EvSetenv "PWD" (cs "/home/user")]
       (Returned (Continue, add_to_history (ln "cd /tmp x") initial_state)))
    [].
Proof.
  split; [reflexivity|].
  refine (cd_changes_directory blank_args 0 initial_state (ln "cd /tmp x")
    [cs "/tmp"; cs "x"] os_fine 0 eq_refl ltac:(discriminate) _ _ _ eq_refl).
  - by apply strstr_None.
  - by apply strstr_None.
  - by apply strstr_None.
Defined.

(** X12. [pwd] on a plain line, whatever follows the name: the shell asks
    [getcwd] and prints the directory it reports followed by a newline, or
    reports [pwd error] when [getcwd] fails; it reads no environment
    variable, creates no process, and the loop goes on. *)
Theorem pwd_prints_directory (junk : argv) js st line rest w n :
  length junk = MAX_ARGS →
  char_at line 0 ≠ NL →
  ¬ occurs (cs "&&") line → ¬ occurs [BAR] line → ¬ occurs [AMP] line →
  tokens line = cs "pwd" :: rest →
  let e := run w n (main_body junk js st line) in
  e = Execution
        (Process
           (EvGetcwd (os_getcwd w n) ::
            match os_getcwd w n with
            | Some d => [EvPrintf PWD_FORMAT [PStr d]]
            | None => [EvPerror "pwd error"]
            end)
           (Returned (Continue, add_to_history line st)))
        [] ∧
  stdout_of (trace (self e)) =
    match os_getcwd w n with
    | Some d => d ++ [NL]
    | None => []
    end.
Proof.
  intros Hlen Hne H1 H2 H3 E. cbn zeta.
  destruct (plain_builtin junk js st line _ _ Hlen Hne H1 H2 H3 E)
    as [-> Hargs].
  unfold simple_command. rewrite E.
  rewrite decide_False by discriminate. rewrite decide_True by done.
  unfold run_builtin_pwd. cbn [then_ run].
  destruct (os_getcwd w n) as [d|]; cbn [then_ run]; unfold after;
    cbn [self trace ending children stdout_of]; [|done].
  split; [done|]. cbn. by rewrite !app_nil_r.
Qed.

Lemma pwd_prints_directory_witness :
  length blank_args = MAX_ARGS ∧
  stdout_of (trace (self (run os_fine 0
    (main_body blank_args 0 initial_state (ln "pwd -L"))))) =
  ln "/home/user".
Proof.
  split; [reflexivity|].
  refine (proj2 (pwd_prints_directory blank_args 0 initial_state
    (ln "pwd -L") [cs "-L"] os_fine 0
    eq_refl ltac:(discriminate) _ _ _ eq_refl)).
  - by apply strstr_None.
  - by apply strstr_None.
  - by apply strstr_None.
Defined.

(** X6. The [history] command lists itself: on a plain line whose first
    token is [history], in a valid state, the shell prints the entries of
    the former listing except the one in the slot the line has just
    overwritten, then the line itself, whole, as the last entry; it
    creates no process and the loop goes on. *)
Theorem history_lists_itself (junk : argv) js st line rest w n :
  length junk = MAX_ARGS →
  valid_state st →
  char_at line 0 ≠ NL →
  ¬ occurs (cs "&&") line → ¬ occurs [BAR] line → ¬ occurs [AMP] line →
  tokens line = cs "history" :: rest →
  let slots := from_slot (history_index st) (history st) in
  run w n (main_body junk js st line) =
  Execution
    (Process
       (listing 1 (drop 1 slots) ++
        [EvPrintf HISTORY_FORMAT
           [PInt (Z.of_nat (1 + in_use (drop 1 slots))); PStr line]])
       (Returned (Continue, add_to_history line st)))
    [].
Proof.
  intros Hlen Hv Hne H1 H2 H3 E. cbn zeta.
  destruct (plain_builtin junk js st line _ _ Hlen Hne H1 H2 H3 E)
    as [-> Hargs].
  pose proof (no_launch_simple_builtin junk (add_to_history line st) line
    false _ rest E ltac:(unfold builtin_names;
      do 3 apply list_elem_of_further; apply list_elem_of_here)) as Hq.
  destruct (no_launch_run _ Hq w n) as (Hc & _).
  destruct (run w n (simple_command _ _ _ _)) as [me kids] eqn:Er.
  cbn [children] in Hc. subst kids. f_equal.
  assert (me = self (run w n
    (simple_command junk (add_to_history line st) line false))) as ->
    by (by rewrite Er).
  unfold simple_command. rewrite E.
  do 3 (rewrite decide_False by discriminate). rewrite decide_True by done.
  rewrite self_run_then. cbn zeta.
  destruct Hv as [Hh Hidx].
  unfold show_history.
  rewrite run_show_history by (by apply add_to_history_valid || done).
  cbn [run finish self trace ending add_to_history history history_index].
  rewrite from_slot_store by done.
  by rewrite listing_app, app_nil_r.
Qed.

Lemma history_lists_itself_witness :
  length blank_args = MAX_ARGS ∧
  run os_fine 0 (main_body blank_args 0
    (add_to_history (ln "ls") initial_state) (ln "history")) =
  Execution
    (Process
       [EvPrintf HISTORY_FORMAT [PInt 1; PStr (ln "ls")];
        EvPrintf HISTORY_FORMAT [PInt 2; PStr (ln "history")]]
       (Returned
          (Continue,
           add_to_history (ln "history")
             (add_to_history (ln "ls") initial_state))))
    [].
Proof.
  split; [reflexivity|].
  refine (history_lists_itself blank_args 0
    (add_to_history (ln "ls") initial_state) (ln "history") [] os_fine 0
    eq_refl _ ltac:(discriminate) _ _ _ eq_refl).
  - by apply add_to_history_valid.
  - by apply strstr_None.
  - by apply strstr_None.
  - by apply strstr_None.
Defined.

(** ** The loop of [main] *)

Lemma exit_line_breaks (junk : argv) js st line :
  length junk = MAX_ARGS →
  exit_line line = true →
  main_body junk js st line = Ret (Break, add_to_history line st).
Proof.
  intros Hlen He. rewrite main_body_cases by done.
  unfold exit_line in He. rewrite !andb_true_iff in He.
  destruct He as (((H0 & H1%bool_decide_eq_true) & H2%bool_decide_eq_true)
                  & H3%bool_decide_eq_true).
  apply negb_true_iff in H0. rewrite H0, H1, H2. cbn zeta.
  unfold simple_command.
  destruct (tokens (take (strcspn line [AMP]) line)) as [|name rest];
    [done|].
  cbn [head] in H3. injection H3 as ->.
  do 2 (rewrite decide_False by discriminate). by rewrite decide_True.
Qed.

(** X8. Nothing a command does ends the shell: in every state whose
    buffer has its [HISTORY_COUNT] slots, for every line and whatever the
    operating system answers, the shell's own process comes back from the
    dispatcher to the loop.  It asks to leave the loop exactly when the
    line is an [exit] command; an empty line leaves the history as it
    was, and every other line has been recorded in it, whole. *)
Theorem dispatcher_returns_to_loop (junk : argv) js st line w n :
  length junk = MAX_ARGS →
  length (history st) = HISTORY_COUNT →
  let e := run w n (main_body junk js st line) in
  ending (self e) =
    Returned
      (if exit_line line then Break else Continue,
       if Ascii.eqb (char_at line 0) NL then st
       else add_to_history line st) ∧
  (exit_line line = true →
     e = Execution
           (Process [] (Returned (Break, add_to_history line st))) []).
Proof.
  intros Hlen Hh. cbn zeta. split; [by apply main_body_ending|].
  intros He. by rewrite exit_line_breaks.
Qed.

Lemma dispatcher_returns_to_loop_witness :
  length blank_args = MAX_ARGS ∧
  length (history initial_state) = HISTORY_COUNT ∧
  ending (self (run os_no_fork 0
    (main_body blank_args 0 initial_state (ln "exit now")))) =
  Returned (Break, add_to_history (ln "exit now") initial_state).
Proof.
  split; [reflexivity|]. split; [reflexivity|].
  exact (proj1 (dispatcher_returns_to_loop blank_args 0 initial_state
           (ln "exit now") os_no_fork 0 eq_refl eq_refl)).
Defined.

(** X16. Nothing is read or run after an [exit] command: whatever the
    lines that follow the first [exit] line, the shell, and every process
    it creates, do exactly what they do when the input stops at that
    line. *)
Theorem nothing_runs_after_exit (junk : argv) js input w :
  length junk = MAX_ARGS →
  ∀ st n,
    run w n (main_loop junk js input st) =
    run w n (main_loop junk js (until_exit input) st).
Proof.
  intros Hlen. induction input as [|line input IH]; intros st n; [done|].
  cbn [until_exit]. destruct (exit_line line) eqn:He.
  - cbn [main_loop run]. by rewrite !exit_line_breaks.
  - cbn [main_loop run]. f_equal. apply run_then_ext.
    intros [c st2] m. cbn [fst snd]. destruct c; [apply IH|done].
Qed.

Lemma nothing_runs_after_exit_witness :
  length blank_args = MAX_ARGS ∧
  run os_fine 0 (main_loop blank_args 0
    [ln "ls"; ln "exit"; ln "rm -rf x"] initial_state) =
  run os_fine 0 (main_loop blank_args 0 [ln "ls"; ln "exit"] initial_state).
Proof.
  split; [reflexivity|].
  exact (nothing_runs_after_exit blank_args 0
           [ln "ls"; ln "exit"; ln "rm -rf x"] os_fine eq_refl
           initial_state 0).
Defined.

Lemma record_all_cons line lines st :
  record_all (line :: lines) st = record_all lines (add_to_history line st).
Proof. done. Qed.

Lemma exit_line_not_empty line :
  exit_line line = true → char_at line 0 ≠ NL.
Proof.
  unfold exit_line. rewrite !andb_true_iff, negb_true_iff.
  intros (((H & _) & _) & _). by apply Ascii.eqb_neq.
Qed.

Lemma main_loop_final_state (junk : argv) js input w :
  length junk = MAX_ARGS →
  ∀ st n,
    length (history st) = HISTORY_COUNT →
    ending (self (run w n (main_loop junk js input st))) =
    Returned (record_all (recorded (until_exit input)) st).
Proof.
  intros Hlen. induction input as [|line input IH]; intros st n Hh; [done|].
  cbn [main_loop run]. unfold after. cbn [self ending].
  rewrite self_run_then. cbn zeta.
  rewrite (main_body_ending junk js st line w (S n) Hlen Hh).
  cbn [fst snd until_exit ending].
  destruct (exit_line line) eqn:He.
  - pose proof (exit_line_not_empty line He) as Hne.
    unfold recorded. rewrite filter_cons_True by done.
    rewrite filter_nil. apply Ascii.eqb_neq in Hne. by rewrite Hne.
  - rewrite IH.
    + unfold recorded.
      destruct (Ascii.eqb_spec (char_at line 0) NL) as [Hc|Hc].
      * by rewrite filter_cons_False by (by intros H; apply H).
      * by rewrite filter_cons_True by done.
    + destruct (Ascii.eqb (char_at line 0) NL); [done|].
      cbn [add_to_history history]. by rewrite length_insert.
Qed.

(** X17. On every input and whatever the operating system answers, the
    shell's own process gets to the end of [main] and returns 0; the
    history it has built by then is the lines up to and including the
    first [exit] line, the empty ones left out, recorded in order. *)
Theorem main_returns_zero (junk : argv) js input w n :
  length junk = MAX_ARGS →
  ending (self (run w n (main junk js input))) = Returned 0%Z ∧
  ending (self (run w n (main_loop junk js input initial_state))) =
    Returned (record_all (recorded (until_exit input)) initial_state).
Proof.
  intros Hlen.
  pose proof (main_loop_final_state junk js input w Hlen initial_state n
                eq_refl) as E.
  split; [|done]. unfold main. rewrite self_run_then. cbn zeta.
  by rewrite E.
Qed.

Lemma main_returns_zero_witness :
  length blank_args = MAX_ARGS ∧
  ending (self (run os_no_fork 0
    (main blank_args 0 [ln "ls | wc"; [NL]; ln "exit"; ln "pwd"]))) =
  Returned 0%Z.
Proof.
  split; [reflexivity|].
  exact (proj1 (main_returns_zero blank_args 0
           [ln "ls | wc"; [NL]; ln "exit"; ln "pwd"] os_no_fork 0 eq_refl)).
Defined.

(** ** The descriptors of the pipe executor *)

Lemma fd_put_eq fd c t : fd_put fd c t fd = c.
Proof. unfold fd_put. by rewrite Z.eqb_refl. Qed.

Lemma fd_put_ne fd c t x : x ≠ fd → fd_put fd c t x = t x.
Proof. intros H. unfold fd_put. by apply Z.eqb_neq in H as ->. Qed.

Lemma fd_trace_app t tr1 tr2 :
  fd_trace t (tr1 ++ tr2) =
  match fd_trace t tr1 with
  | Some t1 => fd_trace t1 tr2
  | None => None
  end.
Proof.
  revert t. induction tr1 as [|ev tr1 IH]; intros t; [done|].
  cbn [app fd_trace]. by destruct (fd_event t ev).
Qed.

Lemma fd_trace_child_process {R} w n args msg code t :
  fd_trace t (trace (@child_process R w n args msg code)) = Some t.
Proof.
  unfold child_process. destruct (arg_at args 0) as [f|]; [|done].
  by destruct (os_exec w n f (argv_strings args)).
Qed.

Ltac table_eq :=
  intros x; unfold fd_put, std_table;
  repeat match goal with
         | |- context [(?a =? ?b)%Z] => destruct (Z.eqb_spec a b)
         end;
  repeat match goal with
         | |- context [(?a <=? ?b)%Z] => destruct (Z.leb_spec a b)
         end;
  cbn [andb]; first [done | lia | congruence].

Ltac fd_steps :=
  cbn [fd_trace fd_event fst snd];
  repeat (first [rewrite fd_put_eq | rewrite fd_put_ne by (done || lia)];
          cbn [fd_trace fd_event fst snd]).

(** X15. Descriptor accounting in the pipe executor, when [pipe] gave two
    fresh descriptors: every [dup2] and [close] the three processes make
    names an open descriptor (nothing is closed twice); the orchestrating
    process ends with exactly the table it started with; the left child
    reaches [execvp] with its standard output on the write end and the
    right child with its standard input on the read end, and in both the
    two channel descriptors themselves are closed and the other standard
    streams are as inherited. *)
Theorem pipe_descriptors_balanced (junk : argv) l r w n rfd wfd :
  length junk = MAX_ARGS →
  os_pipe w n = (rfd, wfd) →
  (2 < rfd)%Z → (2 < wfd)%Z → rfd ≠ wfd →
  let e := run w n (handle_pipe junk l r) in
  let at_fork :=
    fd_put wfd (Some PipeWrite) (fd_put rfd (Some PipeRead) std_table) in
  let left_child :=
    piped_child w (5 + n)
      [EvDup2 wfd STDOUT_FILENO; EvClose rfd; EvClose wfd]
      (args_of (tokens l) junk) "exec left" in
  let right_child :=
    piped_child w (6 + n)
      [EvDup2 rfd STDIN_FILENO; EvClose wfd; EvClose rfd]
      (args_of (tokens r) junk) "exec right" in
  children e =
    spawned (os_fork w (1 + n)) left_child ++
    spawned (os_fork w (2 + n)) right_child ∧
  fd_result std_table (trace (self e)) std_table ∧
  fd_result at_fork (trace left_child)
    (fd_put STDOUT_FILENO (Some PipeWrite) std_table) ∧
  fd_result at_fork (trace right_child)
    (fd_put STDIN_FILENO (Some PipeRead) std_table).
Proof.
  intros Hlen Hp Hr Hw Hne. cbn zeta.
  rewrite run_handle_pipe by done. cbn [self trace children].
  unfold pipe_children, pipe_parent_trace. rewrite Hp. cbn [fst snd].
  split; [done|].
  assert (wfd ≠ rfd) as Hne' by congruence.
  unfold STDOUT_FILENO, STDIN_FILENO, fd_result.
  split; [|split].
  - fd_steps.
    eexists. split; [done|]. table_eq.
  - unfold piped_child. cbn [trace].
    rewrite fd_trace_app. fd_steps.
    rewrite fd_trace_child_process.
    eexists. split; [done|]. table_eq.
  - unfold piped_child. cbn [trace].
    rewrite fd_trace_app. fd_steps.
    rewrite fd_trace_child_process.
    eexists. split; [done|]. table_eq.
Qed.

Lemma pipe_descriptors_balanced_witness :
  length blank_args = MAX_ARGS ∧
  fd_result std_table
    (trace (self (run os_fine 0
       (handle_pipe blank_args (cs "ls ") (ln " wc")))))
    std_table.
Proof.
  split; [reflexivity|].
  exact (proj1 (proj2 (pipe_descriptors_balanced blank_args
    (cs "ls ") (ln " wc") os_fine 0 3%Z 4%Z eq_refl eq_refl
    ltac:(lia) ltac:(lia) ltac:(discriminate)))).
Defined.

(** ** Reading lines *)





(** ** A left command that cannot be started *)

(** X19. On a line with [&&], when the program of the left command cannot
    be started, the left child reports [exec] and exits with status 1;
    once the shell has collected that status it launches nothing more:
    its own calls are the one [fork] and the one [waitpid], the only
    process created is the left child, and the loop goes on. *)
Theorem conditional_stops_when_left_cannot_start
    (junk : argv) js st line l r name rest w n pid :
  length junk = MAX_ARGS →
  char_at line 0 ≠ NL →
  splits_at_first (cs "&&") line l r →
  tokens l = name :: rest →
  os_fork w n = Some pid →
  os_exec w (S n) name (name :: rest) = false →
  os_wait w (S n) (Zpos pid) = Some (pid, wstatus (Normal 1)) →
  run w n (main_body junk js st line) =
  Execution
    (Process
       [EvFork (Zpos pid);
        EvWaitpid (Zpos pid) true (Some (pid, wstatus (Normal 1)))]
       (Returned (Continue, add_to_history line st)))
    [(Zpos pid,
      Process
        [EvExecvp (Some name) (name :: rest); EvPerror "exec"; EvExit 1]
        (Exited 1))].
Proof.
  intros Hlen Hne Hs E Hf Hx Hw.
  rewrite (dispatch_and junk js st line Hne l r Hs).
  rewrite (run_handle_and w n junk js l r _ pid (wstatus (Normal 1)))
    by done.
  rewrite status_success by (cbn; lia). cbn [succeeded Z.eqb].
  unfold child_process. rewrite arg_at_0, argv_strings_args_of, E.
  cbn [head]. by rewrite Hx.
Qed.

Lemma conditional_stops_when_left_cannot_start_witness :
  length blank_args = MAX_ARGS ∧
  trace (self (run os_not_found 0
    (main_body blank_args 0 initial_state (ln "nosuch && echo hi")))) =
  [EvFork 100; EvWaitpid 100 true (Some (100%positive, 256%Z))].
Proof.
  split; [reflexivity|].
  refine (f_equal (λ e, trace (self e))
    (conditional_stops_when_left_cannot_start blank_args 0 initial_state
       (ln "nosuch && echo hi") (cs "nosuch ") (ln " echo hi")
       (cs "nosuch") [] os_not_found 0 100%positive
       eq_refl ltac:(discriminate) _ eq_refl eq_refl eq_refl eq_refl)).
  exact (splits_at_first_strstr (cs "&&") (ln "nosuch && echo hi") 7
           eq_refl).
Defined.
